(** * hyphenbox-clientsdk: element resolution and highlight position stabilisation

    A shallow embedding of the two algorithmic parts of the SDK:

    - [ElementUtils.findElementFromInteraction] and
      [ElementUtils.querySelectorAllWithText] (src/elementUtils.ts), and
    - the polling loop [updatePosition] created by
      [CursorFlowUI.positionHighlightOnElement] (src/uiComponents.ts),
      together with the wrapper bookkeeping of [moveCursorToElement],

    and of the helpers around them: [findElementByText], [compareUrls],
    [isElementInView] and [scrollToElement] (src/elementUtils.ts);
    [detectAndLogPortals], [makeDraggable], the two [adjustColor] functions,
    [showGuidanceElements], [hideGuidanceElements] and [cleanupAllUI]
    (src/uiComponents.ts).

    Conventions.  Pixel coordinates (the fields of a [DOMRect], the scroll
    offsets) are exact rationals [Q]; the counters are integers [Z].  The
    browser is not part of the repository: the geometry that
    [getBoundingClientRect] reports at one tick is an input record
    ([Sample]), and the CSS selector engine is a parameter ([SelectorEngine]). *)

From Stdlib Require Import ZArith QArith Qabs List String Ascii Bool Lia Lqa.
From Stdlib Require Import DecimalString Permutation Sorted Qminmax.
Import ListNotations.

(* ================================================================== *)
(** * Part I.  Position stabilisation (src/uiComponents.ts)            *)
(* ================================================================== *)

(** The four fields of a [DOMRect] that the code reads. *)
Module Rect.
Record t : Type := mk { top : Q; left : Q; width : Q; height : Q }.
End Rect.
Abbreviation DOMRect := Rect.t.

(** [rect.width > 0 && rect.height > 0] *)
Definition hasValidSize (rect : DOMRect) : bool :=
  negb (Qle_bool (Rect.width rect) 0) && negb (Qle_bool (Rect.height rect) 0).

(** [Math.abs(a - b) > 1] *)
Definition moved (a b : Q) : bool := negb (Qle_bool (Qabs (a - b)) 1).

(** The [positionChanged] expression of [updatePosition]. *)
Definition positionChanged (rect lastRect : DOMRect) : bool :=
  moved (Rect.top rect) (Rect.top lastRect)
  || moved (Rect.left rect) (Rect.left lastRect)
  || moved (Rect.width rect) (Rect.width lastRect)
  || moved (Rect.height rect) (Rect.height lastRect).

(** ** Timing parameters *)

Section Timing.
Local Open Scope Z_scope.

(** The two context flags computed at the start of
    [positionHighlightOnElement]. *)
Record Context : Type := mkContext {
  isInExpandedNav : bool;   (* element.closest('[data-expanded="true"]') !== null *)
  isInModal : bool          (* activeModal ? activeModal.contains(element) : false *)
}.

Definition MAX_ATTEMPTS (c : Context) : Z :=
  if isInExpandedNav c then 60 else (if isInModal c then 50 else 30).
Definition CHECK_INTERVAL (c : Context) : Z :=
  if isInExpandedNav c then 80 else (if isInModal c then 100 else 50).
Definition INITIAL_DELAY (c : Context) : Z :=
  if isInExpandedNav c then 400 else (if isInModal c then 300 else 0).
End Timing.

(** The spec's three-valued classification and its table. *)
Inductive StabilizationContext : Type := Standard | InModal | InExpandingNav.

Definition classify (c : Context) : StabilizationContext :=
  if isInExpandedNav c then InExpandingNav
  else if isInModal c then InModal else Standard.

Definition timing_table (k : StabilizationContext) : Z * Z * Z :=
  match k with
  | Standard => (30, 50, 0)
  | InModal => (50, 100, 300)
  | InExpandingNav => (60, 80, 400)
  end%Z.

(** ** The wrapper node and the closure state *)

(** The style properties and the expando property of the wrapper that the
    loop writes.  [transform] holds the two lengths of
    [translate(<x>px, <y>px)]; a property never assigned is [None]. *)
Record Wrapper : Type := mkWrapper {
  transform : option (Q * Q);
  style_width : option Q;
  style_height : option Q;
  opacity : string;
  positionInterval : option positive   (* the handle of setInterval, or null *)
}.

(** The variables captured by the [updatePosition] closure. *)
Record State : Type := mkState {
  lastRect : DOMRect;
  stabilityCounter : Z;
  attemptCounter : Z;
  wrapper : Wrapper
}.

(** One entry of the [parentElement] chain of the target, as seen at a tick. *)
Record Ancestor : Type := mkAncestor {
  parentRect : DOMRect;      (* parent.getBoundingClientRect() *)
  isBody : bool              (* parent === document.body *)
}.

(** What the page shows to one call of [updatePosition]. *)
Record Sample : Type := mkSample {
  rect : DOMRect;            (* element.getBoundingClientRect() *)
  isInDocument : bool;       (* document.body.contains(element) *)
  scrollX : Q;               (* window.scrollX || window.pageXOffset *)
  scrollY : Q;               (* window.scrollY || window.pageYOffset *)
  parents : list Ancestor    (* element.parentElement, its parentElement, ... *)
}.

(** [element.parentElement] is not null. *)
Definition hasParentElement (s : Sample) : bool :=
  match parents s with [] => false | _ :: _ => true end.

Definition zeroRect : DOMRect := Rect.mk 0 0 0 0.

(** The wrapper as [positionHighlightOnElement] appends it to the body:
    hidden, not yet positioned, no interval. *)
Definition newWrapper : Wrapper :=
  mkWrapper None None None "0" None.

Definition initialState : State := mkState zeroRect 0 0 newWrapper.

(** Writing a rectangle to the wrapper (document coordinates). *)
Definition place (r : DOMRect) (sx sy : Q) (w : Wrapper) : Wrapper :=
  mkWrapper (Some (Rect.left r + sx, Rect.top r + sy))
            (Some (Rect.width r)) (Some (Rect.height r))
            (opacity w) (positionInterval w).

Definition setOpacity (o : string) (w : Wrapper) : Wrapper :=
  mkWrapper (transform w) (style_width w) (style_height w) o (positionInterval w).

(** [clearInterval(wrapper['positionInterval']); wrapper['positionInterval'] = null] *)
Definition clearPositionInterval (w : Wrapper) : Wrapper :=
  mkWrapper (transform w) (style_width w) (style_height w) (opacity w) None.

Definition isSome {A : Type} (o : option A) : bool :=
  match o with Some _ => true | None => false end.

(** The [while] loop that walks up the tree looking for a visible parent.
    [chain] starts at the current [parent]; [parentSearchDepth] is the
    counter of the loop.  The result is the rectangle of the parent on which
    the loop sets [foundVisibleParent], if any. *)
Fixpoint findVisibleParent (chain : list Ancestor) (parentSearchDepth : Z)
  : option DOMRect :=
  match chain with
  | [] => None
  | parent :: rest =>
      if isBody parent then None
      else if (10 <=? parentSearchDepth)%Z then None
      else if hasValidSize (parentRect parent) then Some (parentRect parent)
      else findVisibleParent rest (parentSearchDepth + 1)%Z
  end.

Section UpdatePosition.
Variable c : Context.
Local Open Scope Z_scope.

(** The branch taken when [hasValidSize && isInDocument]. *)
Definition onValidSample (s : Sample) (st : State) : State :=
  let w := place (rect s) (scrollX s) (scrollY s) (wrapper st) in
  if positionChanged (rect s) (lastRect st) then
    mkState (rect s) 0 (attemptCounter st) w
  else
    let stabilityCounter' := stabilityCounter st + 1 in
    let w' :=
      if 3 <=? stabilityCounter' then
        let shown := setOpacity "1" w in
        if (5 <=? stabilityCounter') && isSome (positionInterval shown)
        then clearPositionInterval shown else shown
      else w in
    mkState (lastRect st) stabilityCounter' (attemptCounter st) w'.

(** The final [else] branch: the element is invalid and the navigation
    grace period does not apply. *)
Definition onInvalidSample (s : Sample) (st : State) : State :=
  if isInDocument s && negb (hasValidSize (rect s)) && hasParentElement s
  then
    match findVisibleParent (parents s) 0 with
    | Some pr =>
        mkState (lastRect st) (stabilityCounter st) (attemptCounter st)
                (setOpacity "1" (place pr (scrollX s) (scrollY s) (wrapper st)))
    | None => st
    end
  else st.

(** The three-way conditional in the middle of [updatePosition].
    [attemptCounter < MAX_ATTEMPTS/2] is a comparison of JavaScript
    numbers; it is written without the division. *)
Definition sampleBranch (s : Sample) (st : State) : State :=
  if hasValidSize (rect s) && isInDocument s then onValidSample s st
  else if isInExpandedNav c && (2 * attemptCounter st <? MAX_ATTEMPTS c) then st
  else onInvalidSample s st.

(** The trailing [if (attemptCounter >= MAX_ATTEMPTS)] block. *)
Definition stopAfterMaxAttempts (st : State) : State :=
  if MAX_ATTEMPTS c <=? attemptCounter st then
    if isSome (positionInterval (wrapper st)) then
      mkState (lastRect st) (stabilityCounter st) (attemptCounter st)
              (setOpacity "1" (clearPositionInterval (wrapper st)))
    else st
  else st.

Definition countAttempt (st : State) : State :=
  mkState (lastRect st) (stabilityCounter st) (attemptCounter st + 1) (wrapper st).

(** One call of the closure. *)
Definition updatePosition (s : Sample) (st : State) : State :=
  stopAfterMaxAttempts (sampleBranch s (countAttempt st)).

(** The [setTimeout] callback stores the interval handle on the wrapper
    before it makes the first call. *)
Definition startMonitoring (handle : positive) (st : State) : State :=
  mkState (lastRect st) (stabilityCounter st) (attemptCounter st)
          (mkWrapper (transform (wrapper st)) (style_width (wrapper st))
                     (style_height (wrapper st)) (opacity (wrapper st))
                     (Some handle)).

(** A tick of the repeating timer: nothing runs once it is cleared. *)
Definition tick (st : State) (s : Sample) : State :=
  if isSome (positionInterval (wrapper st)) then updatePosition s st else st.

(** The state after the page has shown [samples], one per call, to a run
    started with interval [handle]. *)
Definition run (handle : positive) (samples : list Sample) : State :=
  fold_left tick samples (startMonitoring handle initialState).
End UpdatePosition.

(* ================================================================== *)
(** * Part II.  Element resolution (src/elementUtils.ts)               *)
(* ================================================================== *)

(** ** JavaScript strings

    A [string] is read as a sequence of code units below 256 (the Latin-1
    range), which is where the three string methods used by the code are
    modelled. *)

(** White space and line terminators removed by [String.prototype.trim]:
    TAB, LF, VT, FF, CR, SP and NBSP. *)
Definition isWhiteSpace (ch : ascii) : bool :=
  let n := N_of_ascii ch in
  ((9 <=? n) && (n <=? 13) || (n =? 32) || (n =? 160))%N.

Fixpoint trimStart (s : string) : string :=
  match s with
  | EmptyString => EmptyString
  | String ch rest => if isWhiteSpace ch then trimStart rest else s
  end.

Fixpoint trimEnd (s : string) : string :=
  match s with
  | EmptyString => EmptyString
  | String ch rest =>
      match trimEnd rest with
      | EmptyString => if isWhiteSpace ch then EmptyString else String ch EmptyString
      | rest' => String ch rest'
      end
  end.

(** [s.trim()] *)
Definition trim (s : string) : string := trimEnd (trimStart s).

(** Lower-casing of one code unit: A-Z and the Latin-1 capitals. *)
Definition lowerChar (ch : ascii) : ascii :=
  let n := N_of_ascii ch in
  if ((65 <=? n) && (n <=? 90)
      || (192 <=? n) && (n <=? 222) && negb (n =? 215))%N
  then ascii_of_N (n + 32) else ch.

(** [s.toLowerCase()] *)
Fixpoint toLowerCase (s : string) : string :=
  match s with
  | EmptyString => EmptyString
  | String ch rest => String (lowerChar ch) (toLowerCase rest)
  end.

(** [s.includes(t)] *)
Fixpoint includes (s t : string) : bool :=
  String.prefix t s
  || match s with
     | EmptyString => false
     | String _ rest => includes rest t
     end.

(** ** Values of type [any] *)

(** The values a caller can put in the untyped [interaction] argument and in
    its two properties.  [JNum n] is an integer-valued number, small enough
    to be printed in plain decimal digits.  [JObject str] is an object or
    array that has no callable [trim] property; [str] is what string
    conversion gives for it. *)
Inductive JsVal : Type :=
| JUndefined
| JNull
| JBool (b : bool)
| JNum (n : Z)
| JStr (s : string)
| JObject (str : string).

(** Truthiness, as tested by [!x], [if (x)] and [&&]. *)
Definition truthy (v : JsVal) : bool :=
  match v with
  | JUndefined | JNull => false
  | JBool b => b
  | JNum n => negb (n =? 0)%Z
  | JStr s => negb (String.eqb s EmptyString)
  | JObject _ => true
  end.

(** String conversion of an argument of a DOM method. *)
Definition toDOMString (v : JsVal) : string :=
  match v with
  | JUndefined => "undefined"
  | JNull => "null"
  | JBool true => "true"
  | JBool false => "false"
  | JNum n => DecimalString.NilZero.string_of_int (Z.to_int n)
  | JStr s => s
  | JObject str => str
  end.

(** The [interaction] argument: either a value without [selector] and
    [text] properties, or an object that carries them. *)
Inductive Interaction : Type :=
| IValue (v : JsVal)
| IDescriptor (selector text : JsVal).

Definition interactionTruthy (i : Interaction) : bool :=
  match i with IValue v => truthy v | IDescriptor _ _ => true end.

(** [interaction.selector] and [interaction.text] *)
Definition selectorOf (i : Interaction) : JsVal :=
  match i with IValue _ => JUndefined | IDescriptor sel _ => sel end.
Definition textOf (i : Interaction) : JsVal :=
  match i with IValue _ => JUndefined | IDescriptor _ txt => txt end.

(** ** The document *)

Record Element : Type := mkElement {
  nodeId : nat;                           (* identity of the node *)
  tagName : string;
  textContent : string;                   (* never null on an Element *)
  attributes : list (string * string);
  boundingRect : DOMRect                  (* not read by resolution *)
}.

(** [el.getAttribute(name)] *)
Fixpoint getAttribute (attrs : list (string * string)) (name : string)
  : option string :=
  match attrs with
  | [] => None
  | (k, v) :: rest => if String.eqb k name then Some v else getAttribute rest name
  end.

(** The elements of the document, in document order. *)
Definition Document : Type := list Element.

(** The browser's selector engine: [None] when the selector does not parse
    (the query method throws a [SyntaxError]), otherwise the test that
    decides which elements of the document match. *)
Definition SelectorEngine : Type :=
  string -> option (Document -> Element -> bool).

(** ** Computations that query the document and may throw *)

Inductive Error : Type := SyntaxError | TypeError.

Inductive Event : Type :=
| QuerySelector (sel : string)
| QuerySelectorAll (sel : string).

Inductive Outcome (A : Type) : Type :=
| Normal (a : A)
| Thrown (e : Error).
Arguments Normal {A} a.
Arguments Thrown {A} e.

(** A computation threads the list of document queries made so far (most
    recent first); a query is recorded whether or not it throws. *)
Definition JS (A : Type) : Type := list Event -> Outcome A * list Event.

Definition ret {A : Type} (a : A) : JS A := fun log => (Normal a, log).

Definition throw {A : Type} (e : Error) : JS A := fun log => (Thrown e, log).

Definition bind {A B : Type} (m : JS A) (k : A -> JS B) : JS B :=
  fun log =>
    match m log with
    | (Normal a, log') => k a log'
    | (Thrown e, log') => (Thrown e, log')
    end.

(** [try { m } catch (e) { handler e }] *)
Definition tryCatch {A : Type} (m : JS A) (handler : Error -> JS A) : JS A :=
  fun log =>
    match m log with
    | (Normal a, log') => (Normal a, log')
    | (Thrown e, log') => handler e log'
    end.

Definition emit (ev : Event) : JS unit := fun log => (Normal tt, ev :: log).

Declare Scope js_scope.
Delimit Scope js_scope with js.
Notation "x <- m ;; k" := (bind m (fun x => k))
  (at level 61, m at next level, right associativity) : js_scope.
Notation "m ;;; k" := (bind m (fun _ => k))
  (at level 61, right associativity) : js_scope.

(** [Array.prototype.filter] with a callback that may throw. *)
Fixpoint filterJS {A : Type} (f : A -> JS bool) (l : list A) : JS (list A) :=
  match l with
  | [] => ret []
  | a :: rest =>
      (keep <- f a ;;
       rest' <- filterJS f rest ;;
       ret (if keep then a :: rest' else rest'))%js
  end.

(** [v.trim()] on a value of type [any]: only strings have the method. *)
Definition callTrim (v : JsVal) : JS string :=
  match v with
  | JStr s => ret (trim s)
  | _ => throw TypeError
  end.

(** The scope selector of strategy 2: a, button, [role="button"], .btn *)
Definition dquote : string := String (ascii_of_nat 34) EmptyString.
Definition interactiveScope : string :=
  "a, button, [role=" ++ dquote ++ "button" ++ dquote ++ "], .btn".

Section Resolver.
Variable engine : SelectorEngine.
Variable document : Document.

(** [document.querySelectorAll(selector)] *)
Definition querySelectorAll (selector : string) : JS (list Element) :=
  (emit (QuerySelectorAll selector) ;;;
   match engine selector with
   | None => throw SyntaxError
   | Some matches => ret (filter (matches document) document)
   end)%js.

(** [document.querySelector(selector)] *)
Definition querySelector (selector : JsVal) : JS (option Element) :=
  (emit (QuerySelector (toDOMString selector)) ;;;
   match engine (toDOMString selector) with
   | None => throw SyntaxError
   | Some matches => ret (head (filter (matches document) document))
   end)%js.

(** [el.textContent?.trim() || ''] and [el.getAttribute('value')?.trim() || ''] *)
Definition elementText (el : Element) : string := trim (textContent el).
Definition valueText (el : Element) : string :=
  match getAttribute (attributes el) "value" with
  | Some v => trim v
  | None => EmptyString
  end.

(** The test made by the [filter] callback once [searchText] is known. *)
Definition textMatches (exact : bool) (searchText : string) (el : Element) : bool :=
  if exact then
    String.eqb (elementText el) searchText || String.eqb (valueText el) searchText
  else
    includes (toLowerCase (elementText el)) (toLowerCase searchText)
    || includes (toLowerCase (valueText el)) (toLowerCase searchText).

Definition querySelectorAllWithText (selector : string) (text : JsVal)
  (exact : bool) : JS (list Element) :=
  tryCatch
    (elements <- querySelectorAll selector ;;
     filterJS (fun el =>
                 searchText <- callTrim text ;;
                 ret (textMatches exact searchText el)) elements)%js
    (fun _ => ret []).

(** Strategy 1. *)
Definition bySelector (interaction : Interaction) : JS (option Element) :=
  if truthy (selectorOf interaction) then
    tryCatch (querySelector (selectorOf interaction)) (fun _ => ret None)
  else ret None.

(** Strategy 2; [element] is the result of strategy 1. *)
Definition byText (interaction : Interaction) (requireExactMatch : bool)
  (element : option Element) : JS (option Element) :=
  if (negb (isSome element) || requireExactMatch) && truthy (textOf interaction)
  then
    (textContent <- callTrim (textOf interaction) ;;
     textElements <- querySelectorAllWithText interactiveScope (JStr textContent) true ;;
     match textElements with
     | [only] => ret (Some only)
     | first :: _ :: _ => ret (Some first)
     | [] =>
         if negb requireExactMatch then
           (partialMatches <-
              querySelectorAllWithText interactiveScope (JStr textContent) false ;;
            match partialMatches with
            | first :: _ => ret (Some first)
            | [] => ret element
            end)
         else ret element
     end)%js
  else ret element.

(** Strategy 3; [element] is the result of strategy 2. *)
Definition byBroaderText (interaction : Interaction) (requireExactMatch : bool)
  (element : option Element) : JS (option Element) :=
  if negb (isSome element) && negb requireExactMatch && truthy (textOf interaction)
  then
    (elements <- querySelectorAllWithText "*" (textOf interaction) false ;;
     match elements with
     | first :: _ => ret (Some first)
     | [] => ret element
     end)%js
  else ret element.

(** The body of the outer [try] block. *)
Definition findElementBody (interaction : Interaction) (requireExactMatch : bool)
  : JS (option Element) :=
  (element <- bySelector interaction ;;
   element <- byText interaction requireExactMatch element ;;
   byBroaderText interaction requireExactMatch element)%js.

(** [ElementUtils.findElementFromInteraction]; [None] is [null]. *)
Definition findElementFromInteraction (interaction : Interaction)
  (requireExactMatch : bool) : JS (option Element) :=
  if negb (interactionTruthy interaction) then ret None
  else tryCatch (findElementBody interaction requireExactMatch)
                (fun _ => ret None).

End Resolver.

(* ================================================================== *)
(** * Part III.  Wrapper nodes, timers and observers on the page       *)
(* ================================================================== *)

(** The two kinds of wrapper the UI creates, told apart by class name:
    [hyphen-cursor-wrapper] and [hyphen-highlight-wrapper]. *)
Inductive WrapperClass : Type := CursorWrapper | HighlightWrapper.

Definition sameClass (a b : WrapperClass) : bool :=
  match a, b with
  | CursorWrapper, CursorWrapper | HighlightWrapper, HighlightWrapper => true
  | _, _ => false
  end.

(** A wrapper node together with what its creator stored on it and, for a
    highlight wrapper, the variables of its [updatePosition] closure.  A node
    removed from the body stays reachable from its closure. *)
Record OverlayNode : Type := mkOverlayNode {
  className : WrapperClass;
  attachedToBody : bool;
  closure : State;                 (* [wrapper closure] is the node's style *)
  observer : option nat;           (* wrapper['observer'] *)
  scrollHandler : option nat       (* wrapper['scrollHandler'] *)
}.

(** The part of the browser state that these functions touch.  Wrappers are
    only ever appended to the body, so the order of [nodes] is document
    order; a node is named by its index. *)
Record Page : Type := mkPage {
  nodes : list OverlayNode;
  activeIntervals : list positive;    (* setInterval handles not yet cleared *)
  connectedObservers : list nat;      (* MutationObservers still observing *)
  windowListeners : list nat;         (* scroll/resize handlers on window *)
  nextHandle : positive;
  nextObject : nat
}.

Definition emptyPage : Page := mkPage [] [] [] [] 1%positive 0%nat.

Definition detach (n : OverlayNode) : OverlayNode :=
  mkOverlayNode (className n) false (closure n) (observer n) (scrollHandler n).

(** [const existingWrapper = document.querySelector('.<class>');
     if (existingWrapper && existingWrapper.parentNode)
       existingWrapper.parentNode.removeChild(existingWrapper);] *)
Fixpoint removeExistingWrapper (k : WrapperClass) (l : list OverlayNode)
  : list OverlayNode :=
  match l with
  | [] => []
  | n :: rest =>
      if attachedToBody n && sameClass (className n) k
      then detach n :: rest
      else n :: removeExistingWrapper k rest
  end.

(** The synchronous part of [positionHighlightOnElement] (both arguments
    non-null): the page afterwards and the index of the new wrapper.  The
    [setTimeout] callback is [monitoringStarts]. *)
Definition positionHighlightOnElement (p : Page) : Page * nat :=
  let kept := removeExistingWrapper HighlightWrapper (nodes p) in
  (mkPage (kept ++ [mkOverlayNode HighlightWrapper true initialState None None])%list
          (activeIntervals p) (connectedObservers p) (windowListeners p)
          (nextHandle p) (nextObject p),
   List.length kept).

Definition setClosure (st : State) (n : OverlayNode) : OverlayNode :=
  mkOverlayNode (className n) (attachedToBody n) st (observer n) (scrollHandler n).

Fixpoint updateNode (i : nat) (f : OverlayNode -> OverlayNode)
  (l : list OverlayNode) : list OverlayNode :=
  match l, i with
  | [], _ => []
  | n :: rest, O => f n :: rest
  | n :: rest, S j => n :: updateNode j f rest
  end.

(** The [setTimeout] callback of the run that owns wrapper [i]:
    [setInterval], store the handle, first [updatePosition]. *)
Definition monitoringStarts (c : Context) (i : nat) (first : Sample) (p : Page)
  : Page :=
  let handle := nextHandle p in
  mkPage (updateNode i (fun n =>
            setClosure (updatePosition c first (startMonitoring handle (closure n))) n)
            (nodes p))
         (handle :: activeIntervals p) (connectedObservers p) (windowListeners p)
         (Pos.succ handle) (nextObject p).

(** [moveCursorToElement] (both arguments non-null): removes the existing
    cursor wrapper, appends a new one, connects a new observer and registers
    a new scroll/resize handler. *)
Definition moveCursorToElement (p : Page) : Page * nat :=
  let kept := removeExistingWrapper CursorWrapper (nodes p) in
  let obs := nextObject p in
  let handler := S obs in
  (mkPage (kept ++ [mkOverlayNode CursorWrapper true initialState (Some obs) (Some handler)])%list
          (activeIntervals p) (obs :: connectedObservers p)
          (handler :: windowListeners p)
          (nextHandle p) (S (S obs)),
   List.length kept).

Definition removeHandle (h : option positive) (l : list positive) : list positive :=
  match h with
  | Some x => filter (fun y => negb (Pos.eqb x y)) l
  | None => l
  end.

Definition removeObject (o : option nat) (l : list nat) : list nat :=
  match o with
  | Some x => filter (fun y => negb (Nat.eqb x y)) l
  | None => l
  end.

(** The [wrappers.forEach] loop of [cleanupAllUI]: for every wrapper still in
    the document, disconnect its observer, clear its interval, remove its
    scroll handler, and remove the node. *)
Fixpoint cleanupWrappers (l : list OverlayNode) (p : Page) : Page :=
  match l with
  | [] => p
  | n :: rest =>
      if attachedToBody n then
        cleanupWrappers rest
          (mkPage (nodes p)
                  (removeHandle (positionInterval (wrapper (closure n))) (activeIntervals p))
                  (removeObject (observer n) (connectedObservers p))
                  (removeObject (scrollHandler n) (windowListeners p))
                  (nextHandle p) (nextObject p))
      else cleanupWrappers rest p
  end.

Definition cleanupAllUI_wrappers (p : Page) : Page :=
  let q := cleanupWrappers (nodes p) p in
  mkPage (map detach (nodes q)) (activeIntervals q) (connectedObservers q)
         (windowListeners q) (nextHandle q) (nextObject q).

(* ================================================================== *)
(** * Part IV.  Vocabulary of the properties, and fixtures             *)
(* ================================================================== *)

(** ** The stabilisation loop *)

(** The three timing parameters of a run: attempts, interval (ms), initial
    delay (ms). *)
Definition timing (c : Context) : Z * Z * Z :=
  (MAX_ATTEMPTS c, CHECK_INTERVAL c, INITIAL_DELAY c).

(** "The new rectangle differs from the old one by more than one pixel in
    some dimension", as a proposition. *)
Definition exceedsThreshold (new old : DOMRect) : Prop :=
  1 < Qabs (Rect.top new - Rect.top old)
  \/ 1 < Qabs (Rect.left new - Rect.left old)
  \/ 1 < Qabs (Rect.width new - Rect.width old)
  \/ 1 < Qabs (Rect.height new - Rect.height old).

(** Every sample shows the same rectangle [r], inside the document. *)
Definition constantSamples (r : DOMRect) (samples : list Sample) : Prop :=
  Forall (fun s => rect s = r /\ isInDocument s = true) samples.

(** The first call compares [r] with the all-zero [lastRect]; [firstDelay r]
    is 1 when that comparison reports a change, and 0 otherwise. *)
Definition firstDelay (r : DOMRect) : Z :=
  if positionChanged r zeroRect then 1%Z else 0%Z.

(** The shape of the closure state while the target rests at [r]: [k] calls
    were spent before the counter started to grow. *)
Record Resting (c : Context) (r : DOMRect) (k : Z) (st : State) : Prop := {
  resting_rect : positionChanged r (lastRect st) = false;
  resting_range : (0 <= stabilityCounter st <= 5)%Z;
  resting_attempts : attemptCounter st = (stabilityCounter st + k)%Z;
  resting_delay : (0 <= k <= 1)%Z;
  resting_shown : opacity (wrapper st) = "1"%string <-> (3 <= stabilityCounter st)%Z;
  resting_cleared : positionInterval (wrapper st) = None <-> (5 <= stabilityCounter st)%Z
}.

(** The bookkeeping of a run after [n] ticks: a wrapper that is still hidden
    is still polled, and a run that is still polled has made exactly [n]
    attempts, fewer than its budget. *)
Record Progress (c : Context) (n : Z) (st : State) : Prop := {
  progress_hidden_polling :
    opacity (wrapper st) <> "1"%string -> positionInterval (wrapper st) <> None;
  progress_polling_count :
    positionInterval (wrapper st) <> None ->
    attemptCounter st = n /\ (n < MAX_ATTEMPTS c)%Z
}.

(** What the wrapper shows: its position and size. *)
Definition geometry (w : Wrapper) : option (Q * Q) * option Q * option Q :=
  (transform w, style_width w, style_height w).

(** The wrapper sits on rectangle [r] (in document coordinates) and is
    visible. *)
Definition positionedOn (r : DOMRect) (s : Sample) (w : Wrapper) : Prop :=
  transform w = Some (Rect.left r + scrollX s, Rect.top r + scrollY s)
  /\ style_width w = Some (Rect.width r)
  /\ style_height w = Some (Rect.height r)
  /\ opacity w = "1"%string.

(** The navigation grace period, as tested by the call that processes the
    sample ([attemptCounter] already incremented). *)
Definition inNavGrace (c : Context) (st : State) : bool :=
  isInExpandedNav c && (2 * (attemptCounter st + 1) <? MAX_ATTEMPTS c)%Z.

(** [parentRect.width > 0 && parentRect.height > 0] *)
Definition hasArea (a : Ancestor) : bool := hasValidSize (parentRect a).

(** The walk as C2 words it: the first ancestor with non-zero area among the
    first ten parent links. *)
Definition nearestSizedAncestor (chain : list Ancestor) : option Ancestor :=
  find hasArea (firstn 10 chain).

(** The part of the parent chain below [document.body]. *)
Fixpoint belowBody (chain : list Ancestor) : list Ancestor :=
  match chain with
  | [] => []
  | a :: rest => if isBody a then [] else a :: belowBody rest
  end.

(** ** Fixtures: targets and samples *)

Definition standardContext : Context := mkContext false false.

Definition navContext : Context := mkContext true false.

Definition buttonRect : DOMRect := Rect.mk 100 50 200 40.

Definition buttonSample : Sample := mkSample buttonRect true 0 0 [].

(** A target inside the body that has no size and no parent to fall back
    on. *)
Definition collapsedSample : Sample := mkSample zeroRect true 0 0 [].

(** A collapsed menu item: zero-size target whose parent is a 120x32 list
    item below the body. *)
Definition itemRect : DOMRect := Rect.mk 300 20 120 32.

Definition menuChain : list Ancestor :=
  [mkAncestor itemRect false;
   mkAncestor (Rect.mk 0 0 1280 720) true;
   mkAncestor (Rect.mk 0 0 1280 720) false].

Definition collapsedInItem : Sample := mkSample (Rect.mk 300 20 0 0) true 0 64 menuChain.

(** The same item in a tree that hangs outside the body (the parent chain
    ends before reaching it), so that [document.body.contains] answers
    false. *)
Definition detachedInItem : Sample :=
  mkSample (Rect.mk 300 20 0 0) false 0 64 [mkAncestor itemRect false].

Definition bodyRect : DOMRect := Rect.mk 0 0 1280 720.

(** A hidden element whose parent is the body itself. *)
Definition hiddenChildOfBody : Sample :=
  mkSample zeroRect true 0 0 [mkAncestor bodyRect true].

(** ** Two statements as the specification words them *)

(** C1 as worded: visible exactly from the 3rd sample on, interval cleared
    exactly from the 5th on. *)
Definition stabilizes_on_third_sample (c : Context) (h : positive) (r : DOMRect)
  : Prop :=
  forall (samples : list Sample) (n : nat),
    constantSamples r samples -> (n <= List.length samples)%nat ->
    let st := run c h (firstn n samples) in
    (opacity (wrapper st) = "1"%string <-> (3 <= n)%nat)
    /\ (positionInterval (wrapper st) = None <-> (5 <= n)%nat).

(** C2 as worded: also a target found outside the document is put on its
    nearest sized ancestor. *)
Definition fallback_on_any_invalid_sample (c : Context) (s : Sample) (st : State)
  : Prop :=
  isInDocument s = false \/ hasValidSize (rect s) = false ->
  inNavGrace c st = false ->
  forall a, nearestSizedAncestor (parents s) = Some a ->
            positionedOn (parentRect a) s (wrapper (updatePosition c s st)).

(** ** Strings and computations *)

(** A string that [trimStart] would leave alone. *)
Definition startsClean (s : string) : Prop :=
  match s with
  | EmptyString => True
  | String ch _ => isWhiteSpace ch = false
  end.

(** "[a] contains [b] case-insensitively": some part of [a] equals [b] up to
    letter case. *)
Definition equalIgnoringCase (x y : string) : Prop := toLowerCase x = toLowerCase y.

Definition containsIgnoringCase (a b : string) : Prop :=
  exists pre mid post, a = (pre ++ mid ++ post)%string /\ equalIgnoringCase mid b.

(** [m] ends with outcome [r] after making the queries [evs] (most recent
    first), whatever was logged before. *)
Definition Runs {A : Type} (m : JS A) (r : Outcome A) (evs : list Event) : Prop :=
  forall log, m log = (r, (evs ++ log)%list).

(** [m] has one outcome and one list of queries, the same from every log. *)
Definition Settles {A : Type} (m : JS A) : Prop :=
  exists r evs, Runs m r evs.

(** ** The resolver *)

Local Open Scope string_scope.

(** The elements a scope selector denotes, when the engine accepts it. *)
Definition scopeElements (engine : SelectorEngine) (document : Document)
  (selector : string) : option (list Element) :=
  match engine selector with
  | Some matches => Some (filter (matches document) document)
  | None => None
  end.

(** What strategy 1 resolves. *)
Definition selectorResult (engine : SelectorEngine) (document : Document)
  (selector : JsVal) : option Element :=
  if truthy selector then
    match scopeElements engine document (toDOMString selector) with
    | Some l => head l
    | None => None
    end
  else None.

(** Strategies 2 and 3, run on the result of strategy 1. *)
Definition textStrategies (engine : SelectorEngine) (document : Document)
  (interaction : Interaction) (requireExactMatch : bool)
  (element : option Element) : JS (option Element) :=
  (element' <- byText engine document interaction requireExactMatch element ;;
   byBroaderText engine document interaction requireExactMatch element')%js.

(** The elements of the interactive scope whose text matches [t] exactly, in
    document order: what strategy 2 gets from the matcher. *)
Definition exactMatches (engine : SelectorEngine) (document : Document)
  (t : string) : list Element :=
  match scopeElements engine document interactiveScope with
  | Some scope => filter (textMatches true (trim t)) scope
  | None => []
  end.

Definition valueOrEmpty (el : Element) : string :=
  match getAttribute (attributes el) "value" with
  | Some v => v
  | None => EmptyString
  end.

(** The match test in words, an absent [value] attribute counting as the
    empty string. *)
Definition matchesText (exact : bool) (text : string) (el : Element) : Prop :=
  if exact then
    trim (textContent el) = trim text \/ trim (valueOrEmpty el) = trim text
  else
    containsIgnoringCase (trim (textContent el)) (trim text)
    \/ containsIgnoringCase (trim (valueOrEmpty el)) (trim text).

(** ** Fixtures: a small selector engine and two documents

    [testEngine] understands the scope selector of strategy 2, the universal
    selector and [#id]; it rejects every other string. *)

Fixpoint classTokens (s cur : string) : list string :=
  match s with
  | EmptyString => if String.eqb cur EmptyString then [] else [cur]
  | String ch rest =>
      if isWhiteSpace ch then
        (if String.eqb cur EmptyString then classTokens rest EmptyString
         else cur :: classTokens rest EmptyString)
      else classTokens rest (cur ++ String ch EmptyString)
  end.

Definition hasAttribute (el : Element) (name value : string) : bool :=
  match getAttribute (attributes el) name with
  | Some v => String.eqb v value
  | None => false
  end.

Definition hasClass (el : Element) (cls : string) : bool :=
  match getAttribute (attributes el) "class" with
  | Some v => existsb (String.eqb cls) (classTokens v EmptyString)
  | None => false
  end.

Definition isInteractive (el : Element) : bool :=
  String.eqb (toLowerCase (tagName el)) "a"
  || String.eqb (toLowerCase (tagName el)) "button"
  || hasAttribute el "role" "button"
  || hasClass el "btn".

Definition testEngine : SelectorEngine :=
  fun selector =>
    if String.eqb selector interactiveScope then Some (fun _ el => isInteractive el)
    else if String.eqb selector "*" then Some (fun _ _ => true)
    else match selector with
         | String "#" (String ch rest) =>
             Some (fun _ el => hasAttribute el "id" (String ch rest))
         | _ => None
         end.

(** A page with a banner and two buttons that both read Submit; the first
    button is collapsed (zero area), the second is visible. *)
Definition banner : Element :=
  mkElement 1 "DIV" "Welcome  Submit  Submit" [("id", "banner")] (Rect.mk 0 0 1280 80).

Definition hiddenSubmit : Element :=
  mkElement 3 "BUTTON" " Submit " [("class", "btn primary")] zeroRect.

Definition visibleSubmit : Element :=
  mkElement 7 "BUTTON" "Submit" [] (Rect.mk 400 100 90 30).

Definition formPage : Document := [banner; hiddenSubmit; visibleSubmit].

(** A page with a single link. *)
Definition homeLink : Element :=
  mkElement 2 "A" "Home" [("href", "/")] (Rect.mk 10 10 60 20).

Definition linkPage : Document := [homeLink].

(** ** Two more statements as the specification words them *)



(** C3 as worded: whenever the text has several exact matches, the first of
    them is returned. *)
Definition first_exact_match_always_wins (engine : SelectorEngine)
  (document : Document) (interaction : Interaction) (requireExactMatch : bool)
  : Prop :=
  forall t first second rest,
    textOf interaction = JStr t ->
    exactMatches engine document t = first :: second :: rest ->
    forall log,
      fst (findElementFromInteraction engine document interaction
             requireExactMatch log) = Normal (Some first).

(** ** Fixtures: retargeting the highlight *)

(** A first target is highlighted and its monitoring starts; then a second
    target is highlighted. *)
Definition firstRun : Page :=
  monitoringStarts standardContext 0 buttonSample
    (fst (positionHighlightOnElement emptyPage)).

Definition retargeted : Page := fst (positionHighlightOnElement firstRun).

(** ** More vocabulary for the stabilisation loop *)

(** The bookkeeping of the attempt counter after [n] ticks. *)
Record Budget (c : Context) (n : Z) (st : State) : Prop := {
  budget_range : (0 <= attemptCounter st <= n)%Z;
  budget_max : (attemptCounter st <= MAX_ATTEMPTS c)%Z;
  budget_polling :
    positionInterval (wrapper st) <> None -> (attemptCounter st < MAX_ATTEMPTS c)%Z
}.

(** No sample shows the target with valid geometry inside the body, nor a
    visible parent to fall back on. *)
Definition neverMeasurable (samples : list Sample) : Prop :=
  Forall (fun s => (hasValidSize (rect s) && isInDocument s) = false
                   /\ findVisibleParent (parents s) 0 = None) samples.


(** ** Modal detection ([detectAndLogPortals], src/uiComponents.ts) *)

(** One element matched by the modal selector, with what the function reads
    from it.  A computed [z-index] is an integer or [auto] ([None]). *)
Record ModalNode : Type := mkModalNode {
  modalRect : DOMRect;
  display : string;
  visibility : string;
  computedOpacity : string;
  zIndex : option Z;
  containsTarget : bool      (* m.contains(element), for the target at hand *)
}.

(** The callback of [modals.filter]. *)
Definition isVisibleModal (m : ModalNode) : bool :=
  hasValidSize (modalRect m)
  && negb (String.eqb (display m) "none")
  && negb (String.eqb (visibility m) "hidden")
  && negb (String.eqb (computedOpacity m) "0").

(** [parseInt(window.getComputedStyle(m).zIndex) || 0] *)
Definition zIndexOf (m : ModalNode) : Z :=
  match zIndex m with
  | Some z => z
  | None => 0%Z
  end.

(** [visibleModals.sort((a, b) => zIndexB - zIndexA)]: the sort of the
    language is stable; it is modelled by insertion, an element going in
    front of the elements after it that do not have a larger z-index. *)
Fixpoint insertByZIndex (a : ModalNode) (sorted : list ModalNode) : list ModalNode :=
  match sorted with
  | [] => [a]
  | b :: rest =>
      if (zIndexOf a <? zIndexOf b)%Z then b :: insertByZIndex a rest
      else a :: b :: rest
  end.

Fixpoint sortByZIndex (l : list ModalNode) : list ModalNode :=
  match l with
  | [] => []
  | a :: rest => insertByZIndex a (sortByZIndex rest)
  end.

(** The head of the sorted list, computed directly: the best candidate so
    far is replaced only by an earlier element whose z-index is not smaller. *)
Fixpoint topmost (l : list ModalNode) : option ModalNode :=
  match l with
  | [] => None
  | a :: rest =>
      match topmost rest with
      | Some b => if (zIndexOf a <? zIndexOf b)%Z then Some b else Some a
      | None => Some a
      end
  end.

(** The [activeModal] field of the result of [detectAndLogPortals];
    [modals] is the result of the modal query, in document order. *)
Definition activeModal (modals : list ModalNode) : option ModalNode :=
  head (sortByZIndex (filter isVisibleModal modals)).

(** The context flags as [positionHighlightOnElement] computes them;
    [closestExpanded] is whether [element.closest] finds an expanded
    ancestor. *)
Definition detectContext (modals : list ModalNode) (closestExpanded : bool) : Context :=
  mkContext closestExpanded
            (match activeModal modals with
             | Some m => containsTarget m
             | None => false
             end).

(** Fixtures: a dialog, a hidden dialog with a larger z-index, and a toast
    layer above the dialog that does not contain the target. *)
Definition dialog : ModalNode :=
  mkModalNode (Rect.mk 100 200 600 400) "block" "visible" "1" (Some 200%Z) true.
Definition hiddenDialog : ModalNode :=
  mkModalNode (Rect.mk 0 0 600 400) "none" "visible" "1" (Some 9000%Z) true.
Definition toastLayer : ModalNode :=
  mkModalNode (Rect.mk 0 0 300 80) "block" "visible" "1" (Some 300%Z) false.

(** ** Dragging the start button ([makeDraggable], src/uiComponents.ts) *)

(** The variables of the closure and the properties of the button that the
    three handlers write. *)
Record DragState : Type := mkDragState {
  isDragging : bool;
  offsetX : Q;
  offsetY : Q;
  startPosition : Q * Q;
  styleLeft : option Q;            (* element.style.left, in px *)
  styleTop : option Q;             (* element.style.top, in px *)
  hasRightBottom : bool;           (* style still has right/bottom *)
  buttonOpacity : string;
  buttonTransition : string;
  documentListeners : bool;        (* mousemove/mouseup registered on document *)
  savedPosition : option (Q * Q)   (* localStorage['hyphen-button-position'] *)
}.

(** The button as [createStartButton] styles it: anchored by [bottom] and
    [left], nothing saved, not dragging. *)
Definition newDragState : DragState :=
  mkDragState false 0 0 (0, 0) (Some 20) None true "" "all 0.2s ease" false None.

(** The [mousedown] listener of the drag indicator; [r] is the button's
    rectangle when the event arrives. *)
Definition handleMouseDown (clientX clientY : Q) (r : DOMRect) (d : DragState)
  : DragState :=
  mkDragState true (clientX - Rect.left r) (clientY - Rect.top r)
              (clientX, clientY)
              (styleLeft d) (styleTop d) (hasRightBottom d)
              "0.8" "none" true (savedPosition d).

(** What [handleMouseMove] reads from the window and the button. *)
Record DragFrame : Type := mkDragFrame {
  viewportWidth : Q;     (* window.innerWidth *)
  viewportHeight : Q;    (* window.innerHeight *)
  buttonWidth : Q;       (* element.offsetWidth *)
  buttonHeight : Q       (* element.offsetHeight *)
}.

(** [Math.max(min, Math.min(max, x))] with [min = 0] *)
Definition bounded (maxV x : Q) : Q := Qmax 0 (Qmin maxV x).

Definition handleMouseMove (clientX clientY : Q) (f : DragFrame) (d : DragState)
  : DragState :=
  if negb (isDragging d) then d
  else
    let x := clientX - offsetX d in
    let y := clientY - offsetY d in
    let maxX := viewportWidth f - buttonWidth f in
    let maxY := viewportHeight f - buttonHeight f in
    mkDragState (isDragging d) (offsetX d) (offsetY d) (startPosition d)
                (Some (bounded maxX x)) (Some (bounded maxY y)) false
                (buttonOpacity d) (buttonTransition d) (documentListeners d)
                (savedPosition d).

(** [handleMouseUp]; [r] is the button's rectangle at that moment and
    [storageWorks] tells whether [localStorage.setItem] returns normally. *)
Definition handleMouseUp (r : DOMRect) (storageWorks : bool) (d : DragState)
  : DragState :=
  if negb (isDragging d) then d
  else
    mkDragState false (offsetX d) (offsetY d) (startPosition d)
                (styleLeft d) (styleTop d) (hasRightBottom d)
                "1" "opacity 0.2s ease" false
                (if storageWorks then Some (Rect.left r, Rect.top r)
                 else savedPosition d).

(** The mouse events that reach the button or the document. *)
Inductive MouseEvent : Type :=
| MouseDown (clientX clientY : Q) (r : DOMRect)
| MouseMove (clientX clientY : Q) (f : DragFrame)
| MouseUp (r : DOMRect) (storageWorks : bool).

(** Dispatch: the document-level handlers run only while registered. *)
Definition dispatch (d : DragState) (e : MouseEvent) : DragState :=
  match e with
  | MouseDown x y r => handleMouseDown x y r d
  | MouseMove x y f => if documentListeners d then handleMouseMove x y f d else d
  | MouseUp r ok => if documentListeners d then handleMouseUp r ok d else d
  end.

(** The button lies inside the viewport of [f]. *)
Definition insideViewport (f : DragFrame) (d : DragState) : Prop :=
  exists l t,
    styleLeft d = Some l /\ styleTop d = Some t
    /\ 0 <= l /\ l + buttonWidth f <= viewportWidth f
    /\ 0 <= t /\ t + buttonHeight f <= viewportHeight f.

(** Fixture: a 120x40 button at (20, 700) in a 1280x760 window. *)
Definition startButtonRect : DOMRect := Rect.mk 700 20 120 40.
Definition desktopFrame : DragFrame := mkDragFrame 1280 760 120 40.

(** ** Comparing URLs ([ElementUtils.compareUrls], src/elementUtils.ts) *)

(** The four fields of a [URL] object that [parseUrl] reads. *)
Record ParsedUrl : Type := mkParsedUrl {
  hostname : string;
  pathname : string;
  search : string;
  hash : string
}.

(** The browser's [new URL(url)]: [None] when the constructor throws. *)
Definition UrlParser : Type := string -> option ParsedUrl.

(** [url.match(/^https?:\/\//)] *)
Definition hasHttpScheme (url : string) : bool :=
  String.prefix "http://" url || String.prefix "https://" url.

(** [s.replace(/\/$/, '')] *)
Fixpoint removeTrailingSlash (s : string) : string :=
  match s with
  | EmptyString => EmptyString
  | String ch rest =>
      match rest with
      | EmptyString => if Ascii.eqb ch "/" then EmptyString else s
      | String _ _ => String ch (removeTrailingSlash rest)
      end
  end.

(** [url.split('/')[0]] *)
Fixpoint beforeFirstSlash (s : string) : string :=
  match s with
  | EmptyString => EmptyString
  | String ch rest =>
      if Ascii.eqb ch "/" then EmptyString else String ch (beforeFirstSlash rest)
  end.

(** [url.split('/').slice(1).join('/')] *)
Fixpoint afterFirstSlash (s : string) : string :=
  match s with
  | EmptyString => EmptyString
  | String ch rest => if Ascii.eqb ch "/" then rest else afterFirstSlash rest
  end.

(** [x || '/'] on strings *)
Definition orRoot (s : string) : string :=
  if String.eqb s EmptyString then "/" else s.

(** The inner function [parseUrl]. *)
Definition parseUrl (parser : UrlParser) (url : string) : ParsedUrl :=
  let url := if hasHttpScheme url then url else "http://" ++ url in
  match parser url with
  | Some parsed =>
      mkParsedUrl (hostname parsed)
                  (orRoot (removeTrailingSlash (pathname parsed)))
                  (search parsed) (hash parsed)
  | None =>
      mkParsedUrl (beforeFirstSlash url) ("/" ++ afterFirstSlash url) "" ""
  end.

(** [hostname.includes('localhost') || hostname.includes('127.0.0.1')] *)
Definition isLocalhost (p : ParsedUrl) : bool :=
  includes (hostname p) "localhost" || includes (hostname p) "127.0.0.1".

Definition compareUrls (parser : UrlParser) (url1 url2 : string) : bool :=
  if String.eqb url1 EmptyString || String.eqb url2 EmptyString then false
  else
    let parsedUrl1 := parseUrl parser url1 in
    let parsedUrl2 := parseUrl parser url2 in
    if isLocalhost parsedUrl1 || isLocalhost parsedUrl2 then
      String.eqb (pathname parsedUrl1) (pathname parsedUrl2)
    else
      String.eqb (toLowerCase (hostname parsedUrl1)) (toLowerCase (hostname parsedUrl2))
      && String.eqb (pathname parsedUrl1) (pathname parsedUrl2).

(** Fixture: a parser for URLs of the shape scheme://host:port/path?query#hash;
    it throws on an empty host and on a host with white space. *)
Fixpoint takeUntil (stop : ascii -> bool) (s : string) : string :=
  match s with
  | EmptyString => EmptyString
  | String ch rest => if stop ch then EmptyString else String ch (takeUntil stop rest)
  end.

Fixpoint dropUntil (stop : ascii -> bool) (s : string) : string :=
  match s with
  | EmptyString => EmptyString
  | String ch rest => if stop ch then s else dropUntil stop rest
  end.

Fixpoint anyChar (p : ascii -> bool) (s : string) : bool :=
  match s with
  | EmptyString => false
  | String ch rest => p ch || anyChar p rest
  end.

Definition isOneOf (chars : string) (ch : ascii) : bool :=
  anyChar (Ascii.eqb ch) chars.

Definition testUrlParser : UrlParser :=
  fun url =>
    let rest := afterFirstSlash (afterFirstSlash url) in
    let host := toLowerCase (takeUntil (isOneOf ":/?#") rest) in
    let tail := dropUntil (isOneOf "/?#") rest in
    let path := takeUntil (isOneOf "?#") tail in
    let query := takeUntil (isOneOf "#") (dropUntil (isOneOf "?#") tail) in
    let fragment := dropUntil (isOneOf "#") tail in
    if String.eqb host EmptyString || anyChar isWhiteSpace host then None
    else Some (mkParsedUrl host (orRoot path) query fragment).

(** ** The rest of the resolver's interface (src/elementUtils.ts) *)

(** [ElementUtils.findElementByText]: the first element of the matcher's
    result, or null. *)
Definition findElementByText (engine : SelectorEngine) (document : Document)
  (selector : string) (text : JsVal) (exact : bool) : JS (option Element) :=
  (elements <- querySelectorAllWithText engine document selector text exact ;;
   ret (head elements))%js.

(** The elements of a scope whose text contains [t] up to letter case, in
    document order. *)
Definition partialMatches (engine : SelectorEngine) (document : Document)
  (selector t : string) : list Element :=
  match scopeElements engine document selector with
  | Some scope => filter (textMatches false (trim t)) scope
  | None => []
  end.

(** The outcome of the three strategies as a table, for a descriptor whose
    text is the string [t]. *)
Definition resolutionTable (engine : SelectorEngine) (document : Document)
  (selector : JsVal) (t : string) (requireExactMatch : bool) : option Element :=
  let bySel := selectorResult engine document selector in
  if String.eqb t EmptyString then bySel
  else
    match (if requireExactMatch then None else bySel) with
    | Some element => Some element
    | None =>
        match exactMatches engine document t with
        | first :: _ => Some first
        | [] =>
            if requireExactMatch then bySel
            else
              match partialMatches engine document interactiveScope t with
              | first :: _ => Some first
              | [] => head (partialMatches engine document "*" t)
              end
        end
    end.

(** A page on which Save occurs only inside a paragraph. *)
Definition paragraph : Element :=
  mkElement 4 "P" "Press SAVE to keep your changes" [] (Rect.mk 50 10 400 20).
Definition helpPage : Document := [homeLink; paragraph].

(** ** The guidance container ([showGuidanceElements], [hideGuidanceElements]
       and the container part of [cleanupAllUI], src/uiComponents.ts)

    Nodes, observers and handlers are named by numbers.  The geometry that
    the scheduled [updatePosition] writes is not part of these records;
    what is recorded of a handler or observer is the element its closure
    positions the container on. *)

(** The arguments of one call of [showGuidanceElements]. *)
Record GuidanceCall : Type := mkGuidanceCall {
  target : nat;            (* element *)
  cursorNode : nat;        (* cursor *)
  highlightNode : nat;     (* highlight *)
  popupText : string       (* text *)
}.

Record GuidanceContainer : Type := mkGuidanceContainer {
  containerDisplay : string;                (* container.style.display *)
  containerObserver : option nat;           (* container['observer'] *)
  containerScrollHandler : option nat;      (* container['scrollHandler'] *)
  containerChildren : list nat;             (* highlight and cursor appended *)
  containerPopup : option string            (* text of the popup child *)
}.

Record GuidancePage : Type := mkGuidancePage {
  guidance : option GuidanceContainer;      (* the container in the document *)
  observing : list (nat * nat);             (* connected observer, its target *)
  listening : list (nat * nat);             (* scroll/resize handler, its target *)
  freshObject : nat
}.

Definition emptyGuidancePage : GuidancePage := mkGuidancePage None [] [] 0.

(** [observer.disconnect()] / [window.removeEventListener] for a stored
    object, when the property is set. *)
Definition release (o : option nat) (l : list (nat * nat)) : list (nat * nat) :=
  match o with
  | Some x => filter (fun entry => negb (Nat.eqb (fst entry) x)) l
  | None => l
  end.

Definition showGuidanceElements (call : GuidanceCall) (p : GuidancePage)
  : GuidancePage :=
  match guidance p with
  | Some container =>
      (* reuse: disconnect the previous observer, update the popup text,
         keep the scroll handler and the children *)
      let observer := freshObject p in
      mkGuidancePage
        (Some (mkGuidanceContainer (containerDisplay container) (Some observer)
                 (containerScrollHandler container) (containerChildren container)
                 (Some (popupText call))))
        ((observer, target call) :: release (containerObserver container) (observing p))
        (listening p)
        (S observer)
  | None =>
      let handler := freshObject p in
      let observer := S handler in
      mkGuidancePage
        (Some (mkGuidanceContainer "" (Some observer) (Some handler)
                 [highlightNode call; cursorNode call] (Some (popupText call))))
        ((observer, target call) :: observing p)
        ((handler, target call) :: listening p)
        (S observer)
  end.

Definition hideGuidanceElements (p : GuidancePage) : GuidancePage :=
  match guidance p with
  | Some container =>
      mkGuidancePage
        (Some (mkGuidanceContainer "none" (containerObserver container)
                 (containerScrollHandler container) (containerChildren container)
                 (containerPopup container)))
        (observing p) (listening p) (freshObject p)
  | None => p
  end.

(** The first block of [cleanupAllUI].  Nothing in the module stores a
    [parentObserver] or a [positionInterval] on the container, so those two
    tests of the block find nothing to release. *)
Definition cleanupGuidance (p : GuidancePage) : GuidancePage :=
  match guidance p with
  | Some container =>
      mkGuidancePage None
        (release (containerObserver container) (observing p))
        (release (containerScrollHandler container) (listening p))
        (freshObject p)
  | None => p
  end.

Definition showAll (calls : list GuidanceCall) (p : GuidancePage) : GuidancePage :=
  fold_left (fun page call => showGuidanceElements call page) calls p.

(** Fixture: three steps of a tour. *)
Definition tourSteps : list GuidanceCall :=
  [mkGuidanceCall 11 1 2 "Open the menu";
   mkGuidanceCall 12 3 4 "Choose Settings";
   mkGuidanceCall 13 5 6 "Press Save"].

(** The page after some calls, the first of which created the container. *)
Record Guided (first last : GuidanceCall) (display : string) (p : GuidancePage)
  : Prop := {
  guided_shape :
    exists observer handler,
      guidance p
      = Some (mkGuidanceContainer display (Some observer) (Some handler)
                [highlightNode first; cursorNode first] (Some (popupText last)))
      /\ observing p = [(observer, target last)]
      /\ listening p = [(handler, target first)]
      /\ (observer < freshObject p)%nat
}.

(** ** Scrolling a target into view ([isElementInView], [scrollToElement],
       src/elementUtils.ts) *)

Record Viewport : Type := mkViewport {
  innerWidth : Q;        (* window.innerWidth *)
  innerHeight : Q;       (* window.innerHeight *)
  clientWidth : Q;       (* document.documentElement.clientWidth *)
  clientHeight : Q       (* document.documentElement.clientHeight *)
}.

(** [a || b] on numbers *)
Definition orNumber (a b : Q) : Q := if Qeq_bool a 0 then b else a.

(** [rect.bottom] and [rect.right] of a [DOMRect] *)
Definition rectBottom (r : DOMRect) : Q := Qmax (Rect.top r) (Rect.top r + Rect.height r).
Definition rectRight (r : DOMRect) : Q := Qmax (Rect.left r) (Rect.left r + Rect.width r).

(** [ElementUtils.isElementInView] for a non-null element with rectangle
    [r]; the same test is the [isInView] of [scrollToElement]. *)
Definition isElementInView (v : Viewport) (r : DOMRect) : bool :=
  Qle_bool 0 (Rect.top r)
  && Qle_bool 0 (Rect.left r)
  && Qle_bool (rectBottom r) (orNumber (innerHeight v) (clientHeight v))
  && Qle_bool (rectRight r) (orNumber (innerWidth v) (clientWidth v)).

(** The test made when the timer of [scrollToElement] fires:
    [newRect.top < 0 || newRect.bottom > window.innerHeight] *)
Definition stillOutOfView (v : Viewport) (newRect : DOMRect) : bool :=
  negb (Qle_bool 0 (Rect.top newRect))
  || negb (Qle_bool (rectBottom newRect) (innerHeight v)).

(** The offset [middle] passed to [window.scrollTo], both in the timer
    callback and in the [catch] branch. *)
Definition middle (v : Viewport) (r : DOMRect) (scrollY : Q) : Q :=
  let elemTop := Rect.top r + scrollY in
  elemTop - innerHeight v / 2 + Rect.height r / 2.

(** Layout: the rectangle of an element that showed [r] at vertical scroll
    offset [scrollY], once the window is at offset [scrollY']. *)
Definition rectAtScroll (r : DOMRect) (scrollY scrollY' : Q) : DOMRect :=
  Rect.mk (Rect.top r + scrollY - scrollY') (Rect.left r) (Rect.width r) (Rect.height r).

(** The pending work of one [scrollToElement] call after the smooth scroll
    was requested. *)
Record ScrollWait : Type := mkScrollWait {
  scrollCount : nat;
  timerPending : bool;        (* scrollTimeout not yet fired nor cleared *)
  scrollListener : bool;      (* scrollEndDetection registered on window *)
  resolved : bool;            (* the promise is settled *)
  rechecked : bool            (* the timer callback has run *)
}.

Definition scrollRequested : ScrollWait := mkScrollWait 0 true true false false.

Inductive ScrollEvent : Type :=
| Scrolled          (* a scroll event on window *)
| TimerElapsed.     (* 800 ms have passed *)

Definition onScrollEvent (w : ScrollWait) (e : ScrollEvent) : ScrollWait :=
  match e with
  | Scrolled =>
      if scrollListener w then
        let count := S (scrollCount w) in
        if (5 <? count)%nat then
          mkScrollWait count false false true (rechecked w)
        else mkScrollWait count (timerPending w) true (resolved w) (rechecked w)
      else w
  | TimerElapsed =>
      if timerPending w then
        mkScrollWait (scrollCount w) false (scrollListener w) true true
      else w
  end.

(** The number of scroll events among [events]. *)
Definition scrolls (events : list ScrollEvent) : nat :=
  List.length (filter (fun e => match e with Scrolled => true | _ => false end) events).

(** The scroll events that precede the first [TimerElapsed]. *)
Fixpoint scrollsBeforeTimer (events : list ScrollEvent) : option nat :=
  match events with
  | [] => None
  | TimerElapsed :: _ => Some 0%nat
  | Scrolled :: rest => option_map S (scrollsBeforeTimer rest)
  end.

Definition laptopViewport : Viewport := mkViewport 1280 720 1265 720.

(** The state of the wait after the events [events]. *)
Record Waiting (events : list ScrollEvent) (w : ScrollWait) : Prop := {
  waiting_count :
    scrollListener w = true -> scrollCount w = scrolls events;
  waiting_listener :
    scrollListener w = true <-> (scrolls events < 6)%nat;
  waiting_timer :
    timerPending w = true <->
    (scrolls events < 6)%nat /\ scrollsBeforeTimer events = None;
  waiting_rechecked :
    rechecked w = true <->
    exists n, scrollsBeforeTimer events = Some n /\ (n < 6)%nat;
  waiting_resolved :
    resolved w = true <->
    (6 <= scrolls events)%nat \/ scrollsBeforeTimer events <> None
}.

(** ** Adjusting colours (the two [adjustColor] functions,
       src/uiComponents.ts)

    The [amount] is an integer; digit strings are read exactly. *)

(** [Math.max(0, Math.min(255, x))] *)
Definition clampChannel (x : Z) : Z := Z.max 0 (Z.min 255 x).

Definition hexDigit (d : Z) : ascii :=
  if (d <? 10)%Z then ascii_of_N (Z.to_N (48 + d)) else ascii_of_N (Z.to_N (87 + d)).

(** [n.toString(16).padStart(2, '0')] for the integers 0..255, which is all
    that [clampChannel] produces. *)
Definition toHexPadded (n : Z) : string :=
  String (hexDigit (n / 16)) (String (hexDigit (n mod 16)) EmptyString).

Definition hexDigitValue (ch : ascii) : option Z :=
  let n := Z.of_N (N_of_ascii ch) in
  if ((48 <=? n) && (n <=? 57))%Z then Some (n - 48)%Z
  else if ((97 <=? n) && (n <=? 102))%Z then Some (n - 87)%Z
  else if ((65 <=? n) && (n <=? 70))%Z then Some (n - 55)%Z
  else None.

(** The value of the longest prefix of hexadecimal digits, if not empty. *)
Fixpoint hexPrefixValue (s : string) (acc : option Z) : option Z :=
  match s with
  | EmptyString => acc
  | String ch rest =>
      match hexDigitValue ch with
      | Some d =>
          hexPrefixValue rest
            (Some (16 * (match acc with Some a => a | None => 0 end) + d)%Z)
      | None => acc
      end
  end.

(** [parseInt(s, 16)]; [None] is [NaN]. *)
Definition parseInt16 (s : string) : option Z :=
  let s := trimStart s in
  let '(negative, s) :=
    match s with
    | String "-" rest => (true, rest)
    | String "+" rest => (false, rest)
    | _ => (false, s)
    end in
  let s :=
    match s with
    | String "0" (String "x" rest) => rest
    | String "0" (String "X" rest) => rest
    | _ => s
    end in
  match hexPrefixValue s None with
  | Some v => Some (if negative then (- v)%Z else v)
  | None => None
  end.

(** The replacement callback of the module-level [adjustColor]. *)
Definition adjustPair (amount : Z) (c : string) : string :=
  match parseInt16 c with
  | Some v => toHexPadded (clampChannel (v + amount))
  | None => "NaN"
  end.

(** Characters that [.] does not match. *)
Definition isLineTerminator (ch : ascii) : bool :=
  let n := N_of_ascii ch in ((n =? 10) || (n =? 13))%N.

(** [s.replace(/.{2}/g, f)] *)
Fixpoint replacePairs (f : string -> string) (s : string) : string :=
  match s with
  | EmptyString => EmptyString
  | String a rest =>
      match rest with
      | EmptyString => s
      | String b rest' =>
          if isLineTerminator a then String a (replacePairs f rest)
          else if isLineTerminator b then String a (String b (replacePairs f rest'))
          else f (String a (String b EmptyString)) ++ replacePairs f rest'
      end
  end.

(** [color.replace(/^#/, '')] *)
Definition removeLeadingHash (color : string) : string :=
  match color with
  | String "#" rest => rest
  | _ => color
  end.

(** The function [adjustColor] at the end of the module. *)
Definition adjustColor (color : string) (amount : Z) : string :=
  replacePairs (adjustPair amount) (removeLeadingHash color).

(** Six lowercase hexadecimal digits for three channels. *)
Definition hexColor (r g b : Z) : string :=
  toHexPadded r ++ toHexPadded g ++ toHexPadded b.

(** *** [CursorFlowUI.adjustColor] *)

(** What the browser reports as [style.color] after [color] was assigned to
    it: the empty string when it rejects the value. *)
Definition ColorSerializer : Type := string -> string.

Definition digitValue (ch : ascii) : option Z :=
  let n := Z.of_N (N_of_ascii ch) in
  if ((48 <=? n) && (n <=? 57))%Z then Some (n - 48)%Z else None.

(** [s.match(/\d+/g)?.map(Number)], the empty list standing for [null];
    [cur] is the run of digits being read. *)
Fixpoint digitRuns (s : string) (cur : option Z) : list Z :=
  match s with
  | EmptyString => match cur with Some n => [n] | None => [] end
  | String ch rest =>
      match digitValue ch with
      | Some d =>
          digitRuns rest
            (Some (10 * (match cur with Some n => n | None => 0 end) + d)%Z)
      | None =>
          match cur with
          | Some n => n :: digitRuns rest None
          | None => digitRuns rest None
          end
      end
  end.

Definition CursorFlowUI_adjustColor (serialize : ColorSerializer) (color : string) (amount : Z)
  : string :=
  let hex := serialize color in
  if String.eqb hex EmptyString then color
  else if String.prefix "rgb" hex then
    match digitRuns hex None with
    | [] => color
    | rgb =>
        "#" ++ String.concat EmptyString
                 (map (fun c => toHexPadded (clampChannel (c + amount))) rgb)
    end
  else hex.

(** The serialisation of an opaque colour: rgb(r, g, b). *)
Definition decimal (n : Z) : string := DecimalString.NilZero.string_of_int (Z.to_int n).
Definition rgbString (r g b : Z) : string :=
  "rgb(" ++ decimal r ++ ", " ++ decimal g ++ ", " ++ decimal b ++ ")".

(** The integers 0..255. *)
Definition channelValues : list Z := map Z.of_nat (seq 0 256).

(** Checks run over [channelValues]: two printed hexadecimal digits are read
    back as the number, they contain neither a line terminator nor a hash
    sign, and the decimal digits of the number are read back as the number. *)
Definition hexRoundTrip (n : Z) : bool :=
  match parseInt16 (toHexPadded n) with
  | Some v => Z.eqb v n
  | None => false
  end.

Definition isPlainChar (ch : ascii) : bool :=
  negb (isLineTerminator ch) && negb (Ascii.eqb ch "#").

Definition hexIsPlain (n : Z) : bool :=
  isPlainChar (hexDigit (n / 16)) && isPlainChar (hexDigit (n mod 16)).

(** Reading a string of decimal digits from the run [cur]; [None] when the
    string holds another character. *)
Fixpoint readDigits (s : string) (cur : option Z) : option (option Z) :=
  match s with
  | EmptyString => Some cur
  | String ch rest =>
      match digitValue ch with
      | Some d =>
          readDigits rest
            (Some (10 * (match cur with Some n => n | None => 0 end) + d)%Z)
      | None => None
      end
  end.

Definition decimalRoundTrip (n : Z) : bool :=
  match readDigits (decimal n) None with
  | Some (Some v) => Z.eqb v n
  | _ => false
  end.

(** Fixture: a serialiser that knows two colours. *)
Definition testSerializer : ColorSerializer :=
  fun color =>
    if String.eqb color "#ff6b00" then rgbString 255 107 0
    else if String.eqb color "orange" then rgbString 255 165 0
    else EmptyString.

(** ** More vocabulary for wrappers on the page *)

(** What the UI does to the wrappers of a page. *)
Inductive PageStep : Type :=
| PositionHighlight                              (* positionHighlightOnElement *)
| MoveCursor                                     (* moveCursorToElement *)
| MonitoringStarts (c : Context) (i : nat) (first : Sample).

Definition pageStep (p : Page) (step : PageStep) : Page :=
  match step with
  | PositionHighlight => fst (positionHighlightOnElement p)
  | MoveCursor => fst (moveCursorToElement p)
  | MonitoringStarts c i first => monitoringStarts c i first p
  end.

(** The wrappers of class [k] that are in the document. *)
Definition attachedOfClass (k : WrapperClass) (l : list OverlayNode) : list OverlayNode :=
  filter (fun n => attachedToBody n && sameClass (className n) k) l.

(** An attached wrapper holds the interval handle [h]. *)
Definition heldByAttached (h : positive) (l : list OverlayNode) : Prop :=
  exists n, In n l /\ attachedToBody n = true
            /\ positionInterval (wrapper (closure n)) = Some h.

(** The step asks for a wrapper of class [k]. *)
Definition requests (k : WrapperClass) (step : PageStep) : bool :=
  match step, k with
  | PositionHighlight, HighlightWrapper => true
  | MoveCursor, CursorWrapper => true
  | _, _ => false
  end.

(* ================================================================== *)
(** * Part V.  Properties of the stabilisation loop                    *)
(* ================================================================== *)

(** ** Timing table *)

(** C6.  The two context flags determine the three timing parameters, and
    they are the rows of the table: Standard 30/50/0, InModal 50/100/300,
    InExpandingNav 60/80/400; a target that is both in a modal and in an
    expanded navigation panel gets the InExpandingNav row. *)
Theorem timing_parameters_follow_table :
  forall c : Context,
    timing c = timing_table (classify c)
    /\ timing (mkContext false false) = (30, 50, 0)%Z
    /\ timing (mkContext false true) = (50, 100, 300)%Z
    /\ timing (mkContext true false) = (60, 80, 400)%Z
    /\ timing (mkContext true true) = (60, 80, 400)%Z.
Proof.
  intros [nav modal]; repeat split; destruct nav, modal; reflexivity.
Qed.

Lemma MAX_ATTEMPTS_at_least_30 : forall c, (30 <= MAX_ATTEMPTS c)%Z.
Proof.
  intros [nav modal]; destruct nav, modal; unfold MAX_ATTEMPTS; simpl; lia.
Qed.

(** ** The one-pixel threshold *)

Lemma moved_true_iff : forall a b, moved a b = true <-> 1 < Qabs (a - b).
Proof.
  intros a b. unfold moved. rewrite negb_true_iff.
  split; intro H.
  - apply Qnot_le_lt. intro Hle. apply Qle_bool_iff in Hle. congruence.
  - destruct (Qle_bool (Qabs (a - b)) 1) eqn:E; [|reflexivity].
    apply Qle_bool_iff in E. exfalso. exact (Qlt_not_le _ _ H E).
Qed.

Lemma positionChanged_true_iff :
  forall new old, positionChanged new old = true <-> exceedsThreshold new old.
Proof.
  intros new old. unfold positionChanged, exceedsThreshold.
  rewrite !orb_true_iff, !moved_true_iff. tauto.
Qed.

Lemma positionChanged_false_iff :
  forall new old, positionChanged new old = false <-> ~ exceedsThreshold new old.
Proof.
  intros new old. rewrite <- positionChanged_true_iff.
  destruct (positionChanged new old); split; intro H; congruence.
Qed.

Lemma moved_same : forall a, moved a a = false.
Proof.
  intro a. unfold moved. rewrite negb_false_iff. apply Qle_bool_iff.
  apply Qabs_case; intros; lra.
Qed.

Lemma positionChanged_same : forall r, positionChanged r r = false.
Proof.
  intro r. unfold positionChanged. now rewrite !moved_same.
Qed.

(** ** Unfolding one call *)

Lemma stopAfterMaxAttempts_below :
  forall c st, (attemptCounter st < MAX_ATTEMPTS c)%Z -> stopAfterMaxAttempts c st = st.
Proof.
  intros c st H. unfold stopAfterMaxAttempts.
  destruct (Z.leb_spec (MAX_ATTEMPTS c) (attemptCounter st)); [lia | reflexivity].
Qed.

Lemma stopAfterMaxAttempts_counters :
  forall c st,
    lastRect (stopAfterMaxAttempts c st) = lastRect st
    /\ stabilityCounter (stopAfterMaxAttempts c st) = stabilityCounter st
    /\ attemptCounter (stopAfterMaxAttempts c st) = attemptCounter st.
Proof.
  intros c st. unfold stopAfterMaxAttempts.
  destruct (MAX_ATTEMPTS c <=? attemptCounter st)%Z; [|auto].
  destruct (isSome (positionInterval (wrapper st))); auto.
Qed.

Lemma updatePosition_valid :
  forall c s st,
    hasValidSize (rect s) = true -> isInDocument s = true ->
    updatePosition c s st = stopAfterMaxAttempts c (onValidSample s (countAttempt st)).
Proof.
  intros c s st Hv Hd. unfold updatePosition, sampleBranch.
  now rewrite Hv, Hd.
Qed.



(** ** A target that never moves *)

Lemma tick_resting :
  forall c r k st s,
    Resting c r k st ->
    hasValidSize r = true -> rect s = r -> isInDocument s = true ->
    Resting c r k (tick c st s)
    /\ stabilityCounter (tick c st s) = Z.min 5 (stabilityCounter st + 1).
Proof.
  intros c r k st s [Hr Hrange Hatt Hk Hshown Hcl] Hv Hs Hd.
  pose proof (MAX_ATTEMPTS_at_least_30 c) as Hmax.
  destruct st as [lr sc ac [tr sw sh op [h|]]]; cbn in Hr, Hrange, Hatt, Hshown, Hcl.
  - assert (Hlt : (sc < 5)%Z).
    { destruct (Z.lt_ge_cases sc 5) as [|Hge]; [assumption|].
      apply Hcl in Hge. discriminate. }
    unfold tick. cbn [wrapper positionInterval isSome].
    rewrite updatePosition_valid by (rewrite ?Hs; assumption).
    unfold onValidSample.
    cbn [countAttempt lastRect stabilityCounter attemptCounter wrapper].
    rewrite Hs, Hr. cbv zeta.
    destruct (Z.leb_spec 3 (sc + 1)) as [H3|H3];
      [destruct (Z.leb_spec 5 (sc + 1)) as [H5|H5]|];
      cbn [andb place setOpacity clearPositionInterval positionInterval isSome
           transform style_width style_height opacity];
      (rewrite stopAfterMaxAttempts_below by (cbn; lia));
      (split; [|cbn; lia]);
      constructor; cbn; try assumption; try lia;
      split; intro H; try reflexivity; try discriminate; try lia.
    apply Hshown in H. lia.
  - assert (Hge : (5 <= sc)%Z) by (apply Hcl; reflexivity).
    unfold tick. cbn [wrapper positionInterval isSome].
    split; [constructor; cbn; assumption | cbn; lia].
Qed.

Lemma run_resting :
  forall c r k samples st,
    Resting c r k st ->
    hasValidSize r = true -> constantSamples r samples ->
    Resting c r k (fold_left (tick c) samples st)
    /\ stabilityCounter (fold_left (tick c) samples st)
       = Z.min 5 (stabilityCounter st + Z.of_nat (List.length samples)).
Proof.
  intros c r k samples. induction samples as [|s rest IH]; intros st Hst Hv Hc.
  - simpl. split; [assumption|]. destruct Hst. lia.
  - inversion Hc as [|? ? [Hs Hd] Hrest]; subst.
    destruct (tick_resting c (rect s) k st s Hst Hv eq_refl Hd) as [Hst' Hcount].
    destruct (IH _ Hst' Hv Hrest) as [Hfin Hn].
    cbn [fold_left]. split; [assumption|].
    rewrite Hn, Hcount. cbn [List.length]. destruct Hst. lia.
Qed.

Lemma first_call_records_rect :
  forall c h s,
    hasValidSize (rect s) = true -> isInDocument s = true ->
    positionChanged (rect s) zeroRect = true ->
    Resting c (rect s) 1 (tick c (startMonitoring h initialState) s)
    /\ stabilityCounter (tick c (startMonitoring h initialState) s) = 0%Z.
Proof.
  intros c h s Hv Hd Hch.
  pose proof (MAX_ATTEMPTS_at_least_30 c) as Hmax.
  unfold tick. cbn [startMonitoring wrapper positionInterval isSome].
  rewrite updatePosition_valid by assumption.
  unfold onValidSample.
  change (lastRect (countAttempt (startMonitoring h initialState))) with zeroRect.
  rewrite Hch.
  rewrite stopAfterMaxAttempts_below by (simpl; lia).
  split; [|reflexivity].
  constructor; simpl; try lia.
  - apply positionChanged_same.
  - split; intro H; [discriminate | lia].
  - split; intro H; [discriminate | lia].
Qed.

Lemma start_resting_near_origin :
  forall c h r,
    positionChanged r zeroRect = false ->
    Resting c r 0 (startMonitoring h initialState).
Proof.
  intros c h r H. constructor; simpl; try assumption; try lia.
  - split; intro H0; [discriminate | lia].
  - split; intro H0; [discriminate | lia].
Qed.

(** The run on [n] identical valid samples: the counter has reached
    [min 5 (n - firstDelay r)], the wrapper is visible exactly when that is
    at least 3 and the interval is cleared exactly when it is 5. *)
Lemma constant_run_counter :
  forall c h r samples,
    hasValidSize r = true -> constantSamples r samples ->
    let st := run c h samples in
    let n := Z.of_nat (List.length samples) in
    stabilityCounter st = Z.max 0 (Z.min 5 (n - firstDelay r))
    /\ (opacity (wrapper st) = "1"%string <-> (3 <= stabilityCounter st)%Z)
    /\ (positionInterval (wrapper st) = None <-> (5 <= stabilityCounter st)%Z).
Proof.
  intros c h r samples Hv Hc st n. subst st n. unfold run, firstDelay.
  destruct (positionChanged r zeroRect) eqn:Hch.
  - destruct samples as [|s rest].
    + cbn. repeat split; intros; try discriminate; lia.
    + inversion Hc as [|? ? [Hs Hd] Hrest]; subst.
      destruct (first_call_records_rect c h s Hv Hd Hch) as [Hst H0].
      destruct (run_resting c (rect s) 1 rest _ Hst Hv Hrest) as [Hfin Hn].
      rewrite H0 in Hn. cbn [fold_left].
      destruct Hfin as [_ _ _ _ Hshown Hcl].
      split; [|split; assumption].
      rewrite Hn. cbn [List.length]. lia.
  - destruct (run_resting c r 0 samples _ (start_resting_near_origin c h r Hch) Hv Hc)
      as [Hfin Hn].
    cbn [startMonitoring stabilityCounter initialState] in Hn.
    destruct Hfin as [_ _ _ _ Hshown Hcl].
    split; [|split; assumption].
    rewrite Hn. lia.
Qed.

Lemma constantSamples_firstn :
  forall r n samples, constantSamples r samples -> constantSamples r (firstn n samples).
Proof.
  intros r n samples H. revert n.
  induction H as [|s rest Hs Hrest IH]; intros [|n]; cbn; constructor; auto.
  apply IH.
Qed.

(** C1, as the code has it.  For a target whose rectangle [r] has valid size
    and is the same, inside the document, at every sample, the wrapper is
    visible after [n] samples exactly when [n >= 3 + firstDelay r] and the
    polling interval is cleared exactly when [n >= 5 + firstDelay r], where
    [firstDelay r] is 1 if [r] differs from the initial all-zero [lastRect]
    by more than one pixel in some dimension (the first call then only
    records [r]) and 0 otherwise.  For an ordinary target this is the 4th
    and the 6th sample. *)
Theorem constant_target_stabilizes :
  forall (c : Context) (h : positive) (r : DOMRect) (samples : list Sample) (n : nat),
    hasValidSize r = true ->
    constantSamples r samples ->
    (n <= List.length samples)%nat ->
    let st := run c h (firstn n samples) in
    (opacity (wrapper st) = "1"%string <-> (3 + firstDelay r <= Z.of_nat n)%Z)
    /\ (positionInterval (wrapper st) = None <-> (5 + firstDelay r <= Z.of_nat n)%Z)
    /\ (exceedsThreshold r zeroRect -> firstDelay r = 1%Z)
    /\ (~ exceedsThreshold r zeroRect -> firstDelay r = 0%Z).
Proof.
  intros c h r samples n Hv Hc Hn st. subst st.
  destruct (constant_run_counter c h r (firstn n samples) Hv
              (constantSamples_firstn r n samples Hc)) as (Hcount & Hshown & Hcl).
  rewrite firstn_length_le in Hcount by assumption.
  assert (Hk : (0 <= firstDelay r <= 1)%Z).
  { unfold firstDelay. destruct (positionChanged r zeroRect); lia. }
  rewrite Hshown, Hcl, Hcount.
  repeat split; intros; try lia.
  - unfold firstDelay. apply positionChanged_true_iff in H. now rewrite H.
  - unfold firstDelay. apply positionChanged_false_iff in H. now rewrite H.
Qed.

(** The theorem at the button, six samples, read at the fourth. *)
Lemma constant_target_stabilizes_witness :
  hasValidSize buttonRect = true
  /\ constantSamples buttonRect (repeat buttonSample 6)
  /\ (opacity (wrapper (run standardContext 1 (firstn 4 (repeat buttonSample 6))))
      = "1"%string <-> (3 + firstDelay buttonRect <= 4)%Z).
Proof.
  assert (Hc : constantSamples buttonRect (repeat buttonSample 6)).
  { repeat constructor. }
  split; [reflexivity|]. split; [exact Hc|].
  apply (constant_target_stabilizes standardContext 1 buttonRect
           (repeat buttonSample 6) 4 eq_refl Hc).
  cbn. lia.
Defined.

(** The scenario of the spec: a target resized on its first two samples and
    then at rest is shown on its 5th sample, the counter going 0,0,1,2,3. *)
Example resized_twice_then_stable :
  let early := mkSample (Rect.mk 100 50 120 40) true 0 0 [] in
  map (fun n => stabilityCounter
                  (run standardContext 1
                     (firstn n (early :: repeat buttonSample 4))))
      [1; 2; 3; 4; 5]%nat
  = [0; 0; 1; 2; 3]%Z
  /\ map (fun n => opacity (wrapper
                     (run standardContext 1
                        (firstn n (early :: repeat buttonSample 4)))))
         [4; 5]%nat
     = ["0"; "1"]%string.
Proof. split; reflexivity. Qed.

(** The button in a standard context is still hidden after its 3rd sample. *)
Lemma stabilizes_on_third_sample_fails :
  hasValidSize buttonRect = true
  /\ ~ stabilizes_on_third_sample standardContext 1 buttonRect.
Proof.
  split; [reflexivity|]. intro H.
  assert (Hc : constantSamples buttonRect (repeat buttonSample 3)).
  { repeat constructor. }
  destruct (H (repeat buttonSample 3) 3%nat Hc (le_n _)) as [Hshown _].
  assert (Hop : opacity (wrapper (run standardContext 1
                  (firstn 3 (repeat buttonSample 3)))) = "0"%string) by reflexivity.
  destruct Hshown as [_ Hshown]. rewrite Hshown in Hop by lia. discriminate.
Qed.

(** ** Exhausting the attempt budget *)

Lemma stopAfterMaxAttempts_geometry :
  forall c st, geometry (wrapper (stopAfterMaxAttempts c st)) = geometry (wrapper st).
Proof.
  intros c st. unfold stopAfterMaxAttempts.
  destruct (MAX_ATTEMPTS c <=? attemptCounter st)%Z; [|reflexivity].
  destruct (isSome (positionInterval (wrapper st))); reflexivity.
Qed.

Lemma sampleBranch_attemptCounter :
  forall c s st, attemptCounter (sampleBranch c s st) = attemptCounter st.
Proof.
  intros c s st. unfold sampleBranch, onValidSample, onInvalidSample.
  repeat match goal with
         | |- context [if ?b then _ else _] => destruct b
         | |- context [match ?o with Some _ => _ | None => _ end] => destruct o
         end; reflexivity.
Qed.

(** A sample that is neither valid nor rescued by an ancestor leaves the
    whole state as it was. *)
Lemma sampleBranch_unpositioned :
  forall c s st,
    (hasValidSize (rect s) && isInDocument s) = false ->
    findVisibleParent (parents s) 0 = None ->
    sampleBranch c s st = st.
Proof.
  intros c s st Hinv Hnone. unfold sampleBranch, onInvalidSample.
  rewrite Hinv, Hnone.
  repeat match goal with
         | |- context [if ?b then _ else _] => destruct b
         end; reflexivity.
Qed.



Lemma tick_progress :
  forall c n st s, (0 <= n)%Z -> Progress c n st -> Progress c (n + 1) (tick c st s).
Proof.
  intros c n st s Hn [Hhid Hpoll].
  pose proof (MAX_ATTEMPTS_at_least_30 c) as H30.
  unfold tick.
  destruct (positionInterval (wrapper st)) as [h|] eqn:Hint; cbn [isSome].
  - destruct Hpoll as [Hatt Hlt]; [discriminate|].
    unfold updatePosition.
    set (mid := sampleBranch c s (countAttempt st)).
    assert (Hmid_att : attemptCounter mid = (n + 1)%Z).
    { subst mid. rewrite sampleBranch_attemptCounter. cbn. lia. }
    assert (Hmid_hid : opacity (wrapper mid) <> "1"%string ->
                       positionInterval (wrapper mid) <> None).
    { subst mid. unfold sampleBranch, onValidSample, onInvalidSample.
      repeat match goal with
             | |- context [if ?b then _ else _] => destruct b eqn:?
             | |- context [match ?o with Some _ => _ | None => _ end] => destruct o eqn:?
             end; cbn; rewrite ?Hint; intros; try discriminate; try congruence. }
    unfold stopAfterMaxAttempts. rewrite Hmid_att.
    destruct (Z.leb_spec (MAX_ATTEMPTS c) (n + 1)) as [Hge|Hlt'].
    + destruct (positionInterval (wrapper mid)) eqn:E; cbn [isSome].
      * constructor; cbn; intros; congruence.
      * constructor; intros H; [|congruence].
        exfalso. apply (Hmid_hid H). reflexivity.
    + constructor; [assumption|]. intros _. split; [assumption | lia].
  - constructor; [|rewrite Hint; congruence].
    intro H. exfalso. apply (Hhid H). reflexivity.
Qed.

Lemma run_progress :
  forall c samples n st,
    (0 <= n)%Z -> Progress c n st ->
    Progress c (n + Z.of_nat (List.length samples)) (fold_left (tick c) samples st).
Proof.
  intros c samples. induction samples as [|s rest IH]; intros n st Hn H.
  - cbn. now rewrite Z.add_0_r.
  - cbn [fold_left List.length].
    replace (n + Z.of_nat (S (List.length rest)))%Z
      with ((n + 1) + Z.of_nat (List.length rest))%Z by lia.
    apply IH; [lia|]. now apply tick_progress.
Qed.

(** Whatever the page shows, a run that is given [MAX_ATTEMPTS] samples ends
    with its interval cleared and its wrapper visible. *)
Theorem run_ends_visible :
  forall (c : Context) (h : positive) (samples : list Sample),
    (MAX_ATTEMPTS c <= Z.of_nat (List.length samples))%Z ->
    positionInterval (wrapper (run c h samples)) = None
    /\ opacity (wrapper (run c h samples)) = "1"%string.
Proof.
  intros c h samples Hlen.
  pose proof (MAX_ATTEMPTS_at_least_30 c) as H30.
  assert (H0 : Progress c 0 (startMonitoring h initialState)).
  { constructor; cbn; intros; [discriminate | lia]. }
  destruct (run_progress c samples 0 _ (Z.le_refl 0) H0) as [Hhid Hpoll].
  fold (run c h samples) in Hhid, Hpoll.
  assert (Hnone : positionInterval (wrapper (run c h samples)) = None).
  { destruct (positionInterval (wrapper (run c h samples))) eqn:E; [|reflexivity].
    destruct Hpoll as [_ Hlt]; [discriminate | lia]. }
  split; [exact Hnone|].
  destruct (string_dec (opacity (wrapper (run c h samples))) "1") as [|Hne];
    [assumption|].
  exfalso. exact (Hhid Hne Hnone).
Qed.

(** ** Ancestor fallback *)

Lemma findVisibleParent_from :
  forall chain d,
    (0 <= d <= 10)%Z ->
    findVisibleParent chain d
    = option_map parentRect
        (find hasArea (firstn (Z.to_nat (10 - d)) (belowBody chain))).
Proof.
  induction chain as [|a rest IH]; intros d Hd; cbn [findVisibleParent belowBody].
  - now rewrite firstn_nil.
  - destruct (isBody a); [now rewrite firstn_nil|].
    destruct (Z.leb_spec 10 d) as [Hge|Hlt].
    + replace (10 - d)%Z with 0%Z by lia. reflexivity.
    + replace (Z.to_nat (10 - d)) with (S (Z.to_nat (10 - (d + 1)))) by lia.
      cbn [firstn find]. unfold hasArea at 1.
      destruct (hasValidSize (parentRect a)); [reflexivity|].
      apply IH. lia.
Qed.

(** The loop finds the nearest ancestor with area among the first ten links
    that lie below the body. *)
Lemma findVisibleParent_nearest :
  forall chain,
    findVisibleParent chain 0
    = option_map parentRect (nearestSizedAncestor (belowBody chain)).
Proof.
  intro chain. now rewrite findVisibleParent_from by lia.
Qed.

(** C2, as the code has it.  Outside the navigation grace period, a sample
    that finds the target without valid size or outside the body is handled
    as follows.  If the target is inside the body, the parent links below
    [document.body] are walked, at most ten of them, up to the first
    ancestor with non-zero area; when there is one the wrapper is put on its
    rectangle and made visible at once.  If there is none, or if the target
    is not inside the body, the wrapper keeps its position and size.  In
    every case [lastRect] and [stabilityCounter] are kept and, unless this
    call exhausts the attempt budget, polling of the target goes on. *)
Theorem ancestor_fallback_inside_body :
  forall (c : Context) (s : Sample) (st : State),
    (hasValidSize (rect s) && isInDocument s) = false ->
    inNavGrace c st = false ->
    let st' := updatePosition c s st in
    lastRect st' = lastRect st
    /\ stabilityCounter st' = stabilityCounter st
    /\ ((attemptCounter st + 1 < MAX_ATTEMPTS c)%Z ->
        positionInterval (wrapper st') = positionInterval (wrapper st))
    /\ match (if isInDocument s
              then nearestSizedAncestor (belowBody (parents s)) else None) with
       | Some a => positionedOn (parentRect a) s (wrapper st')
       | None =>
           geometry (wrapper st') = geometry (wrapper st)
           /\ ((attemptCounter st + 1 < MAX_ATTEMPTS c)%Z ->
               opacity (wrapper st') = opacity (wrapper st))
       end.
Proof.
  intros c s st Hinv Hgrace st'. subst st'. unfold updatePosition.
  set (mid := sampleBranch c s (countAttempt st)).
  assert (Hmid : mid = onInvalidSample s (countAttempt st)).
  { subst mid. unfold sampleBranch. rewrite Hinv.
    unfold inNavGrace in Hgrace. cbn [countAttempt attemptCounter].
    now rewrite Hgrace. }
  destruct (stopAfterMaxAttempts_counters c mid) as (HL & HS & HA).
  assert (Hatt : attemptCounter mid = (attemptCounter st + 1)%Z).
  { subst mid. now rewrite sampleBranch_attemptCounter. }
  assert (Hcount : lastRect mid = lastRect st /\ stabilityCounter mid = stabilityCounter st
                   /\ positionInterval (wrapper mid) = positionInterval (wrapper st)).
  { rewrite Hmid. unfold onInvalidSample.
    destruct (isInDocument s && negb (hasValidSize (rect s)) && hasParentElement s);
      [|auto].
    destruct (findVisibleParent (parents s) 0); auto. }
  destruct Hcount as (HL' & HS' & HI').
  rewrite HL, HS, HL', HS'.
  split; [reflexivity|]. split; [reflexivity|]. split.
  { intro Hlt. rewrite stopAfterMaxAttempts_below by lia. exact HI'. }
  assert (Hsize : isInDocument s = true -> hasValidSize (rect s) = false).
  { intro Hd. rewrite Hd, andb_true_r in Hinv. exact Hinv. }
  assert (Hop : opacity (wrapper mid) = "1"%string ->
                opacity (wrapper (stopAfterMaxAttempts c mid)) = "1"%string).
  { intro H. unfold stopAfterMaxAttempts.
    destruct (MAX_ATTEMPTS c <=? attemptCounter mid)%Z; [|assumption].
    destruct (isSome (positionInterval (wrapper mid))); [reflexivity | assumption]. }
  pose proof (stopAfterMaxAttempts_geometry c mid) as Hgeo.
  destruct (isInDocument s) eqn:Hd.
  - specialize (Hsize eq_refl).
    assert (Hwalk : findVisibleParent (parents s) 0
                    = option_map parentRect (nearestSizedAncestor (belowBody (parents s))))
      by apply findVisibleParent_nearest.
    destruct (nearestSizedAncestor (belowBody (parents s))) as [a|] eqn:Hnear.
    + assert (Hpar : hasParentElement s = true).
      { unfold hasParentElement. destruct (parents s); [discriminate | reflexivity]. }
      assert (Hm : wrapper mid
                   = setOpacity "1" (place (parentRect a) (scrollX s) (scrollY s) (wrapper st))).
      { rewrite Hmid. unfold onInvalidSample.
        rewrite Hd, Hsize, Hpar, Hwalk. reflexivity. }
      unfold positionedOn.
      unfold geometry in Hgeo. rewrite Hm in Hgeo. cbn in Hgeo.
      inversion Hgeo as [[Ht Hw Hh]].
      repeat split; try assumption.
      apply Hop. rewrite Hm. reflexivity.
    + assert (Hm : mid = countAttempt st).
      { rewrite Hmid. unfold onInvalidSample. rewrite Hwalk.
        cbn [option_map].
        now destruct (isInDocument s && negb (hasValidSize (rect s)) && hasParentElement s). }
      rewrite Hgeo, Hm. split; [reflexivity|].
      intro Hlt. rewrite stopAfterMaxAttempts_below by (cbn; lia). reflexivity.
  - assert (Hm : mid = countAttempt st).
    { rewrite Hmid. unfold onInvalidSample. now rewrite Hd. }
    rewrite Hgeo, Hm. split; [reflexivity|].
    intro Hlt. rewrite stopAfterMaxAttempts_below by (cbn; lia). reflexivity.
Qed.

(** Inside the grace period of an expanding navigation panel the call only
    counts the attempt. *)
Lemma nav_grace_waits :
  forall c s st,
    (hasValidSize (rect s) && isInDocument s) = false ->
    inNavGrace c st = true ->
    updatePosition c s st = countAttempt st.
Proof.
  intros c s st Hinv Hgrace. unfold updatePosition, sampleBranch.
  rewrite Hinv. unfold inNavGrace in Hgrace.
  cbn [countAttempt attemptCounter]. rewrite Hgrace.
  apply andb_true_iff in Hgrace. destruct Hgrace as [_ Hlt].
  apply Z.ltb_lt in Hlt.
  pose proof (MAX_ATTEMPTS_at_least_30 c) as H30.
  apply stopAfterMaxAttempts_below. cbn. lia.
Qed.

Example collapsed_nav_item_waits :
  wrapper (updatePosition navContext collapsedInItem (startMonitoring 1 initialState))
  = wrapper (startMonitoring 1 initialState).
Proof. reflexivity. Qed.

(** The collapsed menu item is put on its list item at the first sample. *)
Lemma ancestor_fallback_inside_body_witness :
  positionedOn itemRect collapsedInItem
    (wrapper (updatePosition standardContext collapsedInItem
                (startMonitoring 1 initialState))).
Proof.
  pose proof (ancestor_fallback_inside_body standardContext collapsedInItem
                (startMonitoring 1 initialState) eq_refl eq_refl) as (_ & _ & _ & H).
  exact H.
Defined.

(** The item outside the body is not put on its parent although the parent
    has area: the wrapper stays hidden and unpositioned.  Nor is the hidden
    child of the body put on the body: the walk stops there. *)
Lemma fallback_on_any_invalid_sample_fails :
  ~ fallback_on_any_invalid_sample standardContext detachedInItem
      (startMonitoring 1 initialState)
  /\ ~ fallback_on_any_invalid_sample standardContext hiddenChildOfBody
        (startMonitoring 1 initialState).
Proof.
  split; intro H.
  - destruct (H (or_introl eq_refl) eq_refl (mkAncestor itemRect false) eq_refl)
      as (Ht & _).
    discriminate Ht.
  - destruct (H (or_intror eq_refl) eq_refl (mkAncestor bodyRect true) eq_refl)
      as (Ht & _).
    discriminate Ht.
Qed.

(* ================================================================== *)
(** * Part VI.  Properties of element resolution                       *)
(* ================================================================== *)

(** ** Strings *)

Lemma trimEnd_cons :
  forall ch rest,
    trimEnd (String ch rest)
    = match trimEnd rest with
      | EmptyString => if isWhiteSpace ch then EmptyString else String ch EmptyString
      | String ch' rest' => String ch (String ch' rest')
      end.
Proof. reflexivity. Qed.

Lemma trimEnd_idempotent : forall s, trimEnd (trimEnd s) = trimEnd s.
Proof.
  induction s as [|ch rest IH]; [reflexivity|].
  rewrite trimEnd_cons. destruct (trimEnd rest) as [|ch' rest'] eqn:E.
  - destruct (isWhiteSpace ch) eqn:W; [reflexivity|].
    rewrite trimEnd_cons. cbn [trimEnd]. now rewrite W.
  - rewrite trimEnd_cons, IH. reflexivity.
Qed.

Lemma trimStart_clean : forall s, startsClean (trimStart s).
Proof.
  induction s as [|ch rest IH]; [exact I|].
  cbn [trimStart]. destruct (isWhiteSpace ch) eqn:W; [exact IH | exact W].
Qed.

Lemma trimStart_of_clean : forall s, startsClean s -> trimStart s = s.
Proof.
  intros [|ch rest] H; [reflexivity|]. cbn in *. now rewrite H.
Qed.

Lemma trimEnd_clean : forall s, startsClean s -> startsClean (trimEnd s).
Proof.
  intros [|ch rest] H; [exact I|].
  cbn [trimEnd]. cbn in H. destruct (trimEnd rest); [|exact H].
  rewrite H. exact H.
Qed.

Lemma trim_idempotent : forall s, trim (trim s) = trim s.
Proof.
  intro s. unfold trim.
  rewrite (trimStart_of_clean (trimEnd (trimStart s))).
  - apply trimEnd_idempotent.
  - apply trimEnd_clean, trimStart_clean.
Qed.

Lemma prefix_true_iff :
  forall t s, String.prefix t s = true <-> exists post, s = (t ++ post)%string.
Proof.
  induction t as [|a t IH]; intros s.
  - destruct s; cbn; (split; [intros _; eexists; reflexivity | reflexivity]).
  - destruct s as [|b s]; cbn.
    + split; [discriminate | intros [post H]; discriminate].
    + destruct (Ascii.ascii_dec a b) as [->|Hne].
      * rewrite IH. split; intros [post H]; exists post; [now rewrite H | now inversion H].
      * split; [discriminate|]. intros [post H]. congruence.
Qed.

Lemma includes_true_iff :
  forall s t,
    includes s t = true <-> exists pre post, s = (pre ++ t ++ post)%string.
Proof.
  induction s as [|a s IH]; intros t; cbn [includes]; rewrite orb_true_iff.
  - rewrite prefix_true_iff. split.
    + intros [[post H]|H]; [|discriminate]. now exists EmptyString, post.
    + intros [pre [post H]]. left. destruct pre; [now exists post | discriminate].
  - rewrite prefix_true_iff, IH. split.
    + intros [[post H]|[pre [post H]]].
      * now exists EmptyString, post.
      * exists (String a pre), post. cbn. now rewrite H.
    + intros [pre [post H]]. destruct pre as [|b pre].
      * left. now exists post.
      * right. exists pre, post. cbn in H. now inversion H.
Qed.

Lemma toLowerCase_app :
  forall a b, toLowerCase (a ++ b) = (toLowerCase a ++ toLowerCase b)%string.
Proof.
  induction a as [|ch a IH]; intro b; cbn; [reflexivity | now rewrite IH].
Qed.

Lemma toLowerCase_split :
  forall s x y,
    toLowerCase s = (x ++ y)%string ->
    exists s1 s2, s = (s1 ++ s2)%string /\ toLowerCase s1 = x /\ toLowerCase s2 = y.
Proof.
  intros s x. revert s. induction x as [|ch x IH]; intros s y H.
  - exists EmptyString, s. auto.
  - destruct s as [|ch' s]; [discriminate|].
    cbn in H. inversion H as [[Hch Hrest]].
    destruct (IH s y Hrest) as (s1 & s2 & -> & H1 & H2).
    exists (String ch' s1), s2. cbn. rewrite H1. auto.
Qed.

Lemma includes_lower_iff :
  forall a b,
    includes (toLowerCase a) (toLowerCase b) = true <-> containsIgnoringCase a b.
Proof.
  intros a b. rewrite includes_true_iff. split.
  - intros (pre & post & H).
    destruct (toLowerCase_split _ _ _ H) as (s1 & s2 & -> & H1 & H2).
    destruct (toLowerCase_split _ _ _ H2) as (s3 & s4 & -> & H3 & H4).
    exists s1, s3, s4. split; [reflexivity | exact H3].
  - intros (pre & mid & post & -> & H).
    exists (toLowerCase pre), (toLowerCase post).
    rewrite !toLowerCase_app. now rewrite H.
Qed.

(** ** Reasoning about computations *)

Lemma Runs_ret : forall A (a : A), Runs (ret a) (Normal a) [].
Proof. intros A a log. reflexivity. Qed.

Lemma Runs_throw : forall A (e : Error), Runs (@throw A e) (Thrown e) [].
Proof. intros A e log. reflexivity. Qed.

Lemma Runs_emit : forall ev, Runs (emit ev) (Normal tt) [ev].
Proof. intros ev log. reflexivity. Qed.

Lemma Runs_bind :
  forall A B (m : JS A) (k : A -> JS B) a r e1 e2,
    Runs m (Normal a) e1 -> Runs (k a) r e2 -> Runs (bind m k) r (e2 ++ e1)%list.
Proof.
  intros A B m k a r e1 e2 Hm Hk log. unfold bind.
  now rewrite Hm, Hk, app_assoc.
Qed.

Lemma Runs_bind_thrown :
  forall A B (m : JS A) (k : A -> JS B) e e1,
    Runs m (Thrown e) e1 -> Runs (bind m k) (Thrown e) e1.
Proof.
  intros A B m k e e1 Hm log. unfold bind. now rewrite Hm.
Qed.

Lemma Runs_tryCatch :
  forall A (m : JS A) handler a e1,
    Runs m (Normal a) e1 -> Runs (tryCatch m handler) (Normal a) e1.
Proof.
  intros A m handler a e1 Hm log. unfold tryCatch. now rewrite Hm.
Qed.

Lemma Runs_tryCatch_thrown :
  forall A (m : JS A) handler e r e1 e2,
    Runs m (Thrown e) e1 -> Runs (handler e) r e2 ->
    Runs (tryCatch m handler) r (e2 ++ e1)%list.
Proof.
  intros A m handler e r e1 e2 Hm Hh log. unfold tryCatch.
  now rewrite Hm, Hh, app_assoc.
Qed.

Lemma Runs_unique :
  forall A (m : JS A) r1 r2 e1 e2, Runs m r1 e1 -> Runs m r2 e2 -> r1 = r2.
Proof.
  intros A m r1 r2 e1 e2 H1 H2.
  specialize (H1 []). specialize (H2 []). congruence.
Qed.

Lemma Runs_filterJS_total :
  forall A (f : A -> JS bool) (p : A -> bool) (l : list A),
    (forall a, Runs (f a) (Normal (p a)) []) ->
    Runs (filterJS f l) (Normal (filter p l)) [].
Proof.
  intros A f p l Hf. induction l as [|a rest IH]; [apply Runs_ret|].
  cbn [filterJS filter].
  change (@nil Event) with (([] ++ []) ++ @nil Event)%list.
  eapply Runs_bind; [apply Hf|].
  eapply Runs_bind; [apply IH|].
  apply Runs_ret.
Qed.

(** The filter callback never throws when the search text is a string. *)
Lemma Runs_filter_string :
  forall exact t (l : list Element),
    Runs (filterJS (fun el => (searchText <- callTrim (JStr t) ;;
                               ret (textMatches exact searchText el))%js) l)
         (Normal (filter (textMatches exact (trim t)) l)) [].
Proof.
  intros exact t l. apply Runs_filterJS_total. intros el log. reflexivity.
Qed.

(** On any other value the callback throws at the first element, if there
    is one. *)
Lemma Runs_filter_other :
  forall exact v (l : list Element),
    (forall t, v <> JStr t) ->
    Runs (filterJS (fun el => (searchText <- callTrim v ;;
                               ret (textMatches exact searchText el))%js) l)
         (match l with [] => Normal [] | _ :: _ => Thrown TypeError end) [].
Proof.
  intros exact v l Hv. destruct l as [|el rest]; intro log; [reflexivity|].
  cbn [filterJS]. unfold bind at 1.
  destruct v; try reflexivity. exfalso. now apply (Hv s).
Qed.

Section ResolverFacts.
Variable engine : SelectorEngine.
Variable document : Document.

Lemma Runs_querySelectorAll :
  forall selector,
    Runs (querySelectorAll engine document selector)
         (match scopeElements engine document selector with
          | Some l => Normal l
          | None => Thrown SyntaxError
          end)
         [QuerySelectorAll selector].
Proof.
  intros selector log. unfold querySelectorAll, scopeElements, bind, emit.
  destruct (engine selector); reflexivity.
Qed.

(** The text matcher on a string: one query, never an exception. *)
Lemma Runs_querySelectorAllWithText :
  forall selector t exact,
    Runs (querySelectorAllWithText engine document selector (JStr t) exact)
         (Normal (match scopeElements engine document selector with
                  | Some l => filter (textMatches exact (trim t)) l
                  | None => []
                  end))
         [QuerySelectorAll selector].
Proof.
  intros selector t exact. unfold querySelectorAllWithText.
  pose proof (Runs_querySelectorAll selector) as Hq.
  destruct (scopeElements engine document selector) as [l|].
  - apply Runs_tryCatch.
    change [QuerySelectorAll selector] with ([] ++ [QuerySelectorAll selector])%list.
    eapply Runs_bind; [exact Hq | apply Runs_filter_string].
  - change [QuerySelectorAll selector] with ([] ++ [QuerySelectorAll selector])%list.
    eapply Runs_tryCatch_thrown; [|apply Runs_ret].
    apply Runs_bind_thrown. exact Hq.
Qed.

Lemma Runs_bySelector :
  forall interaction,
    Runs (bySelector engine document interaction)
         (Normal (selectorResult engine document (selectorOf interaction)))
         (if truthy (selectorOf interaction)
          then [QuerySelector (toDOMString (selectorOf interaction))] else []).
Proof.
  intros interaction log. unfold bySelector, selectorResult, scopeElements.
  destruct (truthy (selectorOf interaction)); [|reflexivity].
  unfold tryCatch, querySelector, bind, emit.
  destruct (engine (toDOMString (selectorOf interaction))); reflexivity.
Qed.

End ResolverFacts.


(** ** The text matcher *)

Lemma valueText_valueOrEmpty : forall el, valueText el = trim (valueOrEmpty el).
Proof.
  intro el. unfold valueText, valueOrEmpty.
  destruct (getAttribute (attributes el) "value"); reflexivity.
Qed.

Lemma textMatches_iff :
  forall exact text el,
    textMatches exact (trim text) el = true <-> matchesText exact text el.
Proof.
  intros exact text el. unfold textMatches, matchesText, elementText.
  rewrite valueText_valueOrEmpty.
  destruct exact; rewrite orb_true_iff.
  - now rewrite !String.eqb_eq.
  - now rewrite !includes_lower_iff.
Qed.




(** ** Every computation of the resolver has an outcome *)

Lemma Settles_ret : forall A (a : A), Settles (ret a).
Proof. intros A a. exists (Normal a), []. apply Runs_ret. Qed.

Lemma Settles_throw : forall A (e : Error), Settles (@throw A e).
Proof. intros A e. exists (Thrown e), []. apply Runs_throw. Qed.

Lemma Settles_bind :
  forall A B (m : JS A) (k : A -> JS B),
    Settles m -> (forall a, Settles (k a)) -> Settles (bind m k).
Proof.
  intros A B m k (r & e1 & Hm) Hk. destruct r as [a|e].
  - destruct (Hk a) as (r' & e2 & Hka).
    exists r', (e2 ++ e1)%list. eapply Runs_bind; eassumption.
  - exists (Thrown e), e1. now apply Runs_bind_thrown.
Qed.

Lemma Settles_tryCatch :
  forall A (m : JS A) handler,
    Settles m -> (forall e, Settles (handler e)) -> Settles (tryCatch m handler).
Proof.
  intros A m handler (r & e1 & Hm) Hh. destruct r as [a|e].
  - exists (Normal a), e1. now apply Runs_tryCatch.
  - destruct (Hh e) as (r' & e2 & He).
    exists r', (e2 ++ e1)%list. eapply Runs_tryCatch_thrown; eassumption.
Qed.

Lemma Settles_filterJS :
  forall A (f : A -> JS bool) (l : list A),
    (forall a, Settles (f a)) -> Settles (filterJS f l).
Proof.
  intros A f l Hf. induction l as [|a rest IH]; [apply Settles_ret|].
  cbn [filterJS]. apply Settles_bind; [apply Hf|]. intro keep.
  apply Settles_bind; [exact IH|]. intro rest'. apply Settles_ret.
Qed.

Lemma Settles_callTrim : forall v, Settles (callTrim v).
Proof.
  intros []; cbn; first [apply Settles_ret | apply Settles_throw].
Qed.

Create HintDb settles.
#[local] Hint Resolve Settles_ret Settles_throw Settles_callTrim : settles.

Section ResolverSettles.
Variable engine : SelectorEngine.
Variable document : Document.

Lemma Settles_querySelectorAllWithText :
  forall selector text exact,
    Settles (querySelectorAllWithText engine document selector text exact).
Proof.
  intros selector text exact. unfold querySelectorAllWithText.
  apply Settles_tryCatch; [|auto with settles].
  apply Settles_bind.
  - eexists _, _. apply Runs_querySelectorAll.
  - intro elements. apply Settles_filterJS. intro el.
    apply Settles_bind; auto with settles.
Qed.

Lemma Settles_byText :
  forall interaction requireExactMatch element,
    Settles (byText engine document interaction requireExactMatch element).
Proof.
  intros interaction req element. unfold byText.
  destruct ((negb (isSome element) || req) && truthy (textOf interaction));
    [|auto with settles].
  apply Settles_bind; [auto with settles|]. intro textContent.
  apply Settles_bind; [apply Settles_querySelectorAllWithText|].
  intros [|first [|second rest]]; auto with settles.
  destruct (negb req); [|auto with settles].
  apply Settles_bind; [apply Settles_querySelectorAllWithText|].
  intros [|first rest]; auto with settles.
Qed.

Lemma Settles_byBroaderText :
  forall interaction requireExactMatch element,
    Settles (byBroaderText engine document interaction requireExactMatch element).
Proof.
  intros interaction req element. unfold byBroaderText.
  destruct (negb (isSome element) && negb req && truthy (textOf interaction));
    [|auto with settles].
  apply Settles_bind; [apply Settles_querySelectorAllWithText|].
  intros [|first rest]; auto with settles.
Qed.

Lemma Settles_textStrategies :
  forall interaction requireExactMatch element,
    Settles (textStrategies engine document interaction requireExactMatch element).
Proof.
  intros. apply Settles_bind; [apply Settles_byText|].
  intro. apply Settles_byBroaderText.
Qed.

(** The resolver is strategy 1 followed by the text strategies, inside the
    outer [try]. *)
Lemma findElement_unfold :
  forall selector text requireExactMatch,
    findElementFromInteraction engine document (IDescriptor selector text)
      requireExactMatch
    = tryCatch
        (bind (bySelector engine document (IDescriptor selector text))
              (textStrategies engine document (IDescriptor selector text) requireExactMatch))
        (fun _ => ret None).
Proof. reflexivity. Qed.

(** The text strategies read only the [text] property. *)
Lemma textStrategies_selector_irrelevant :
  forall selector selector' text requireExactMatch element,
    textStrategies engine document (IDescriptor selector text) requireExactMatch element
    = textStrategies engine document (IDescriptor selector' text) requireExactMatch
        element.
Proof. reflexivity. Qed.

(** From the outcome of the text strategies to the outcome of the call. *)
Lemma Runs_findElement :
  forall selector text requireExactMatch r evs,
    Runs (textStrategies engine document (IDescriptor selector text) requireExactMatch
            (selectorResult engine document selector)) r evs ->
    exists evs',
      Runs (findElementFromInteraction engine document (IDescriptor selector text)
              requireExactMatch)
           (Normal (match r with Normal found => found | Thrown _ => None end)) evs'.
Proof.
  intros selector text req r evs Hr. rewrite findElement_unfold.
  pose proof (Runs_bySelector engine document (IDescriptor selector text)) as Hs.
  cbn [selectorOf] in Hs.
  destruct r as [found|e].
  - eexists. apply Runs_tryCatch. eapply Runs_bind; eassumption.
  - eexists. eapply Runs_tryCatch_thrown; [|apply Runs_ret].
    eapply Runs_bind; eassumption.
Qed.

End ResolverSettles.

(** ** Resolution never throws *)

(** The body of the outer [try] does throw: a numeric [text] has no [trim]. *)
Example body_throws_on_numeric_text :
  Runs (findElementBody testEngine formPage (IDescriptor JUndefined (JNum 5)) true)
       (Thrown TypeError) [].
Proof. intro log. reflexivity. Qed.

(** C7.  For every value passed as the descriptor, every flag and every
    document, the call returns an element or null and throws nothing.  When
    the engine rejects the selector, strategy 1 is dropped and the call
    returns what the same descriptor without a selector returns. *)
Theorem resolution_never_throws :
  forall (engine : SelectorEngine) (document : Document)
         (interaction : Interaction) (requireExactMatch : bool) (log : list Event),
    (exists found,
        fst (findElementFromInteraction engine document interaction
               requireExactMatch log) = Normal found)
    /\ (forall selector text,
          interaction = IDescriptor selector text ->
          engine (toDOMString selector) = None ->
          fst (findElementFromInteraction engine document interaction
                 requireExactMatch log)
          = fst (findElementFromInteraction engine document
                   (IDescriptor JUndefined text) requireExactMatch log)).
Proof.
  intros engine document interaction req log. split.
  - destruct interaction as [v | selector text].
    + unfold findElementFromInteraction.
      destruct (negb (interactionTruthy (IValue v))); [now exists None|].
      unfold tryCatch.
      destruct (findElementBody engine document (IValue v) req log) as [[found|e] log'];
        [now exists found | now exists None].
    + destruct (Settles_textStrategies engine document (IDescriptor selector text) req
                  (selectorResult engine document selector)) as (r & evs & Hr).
      destruct (Runs_findElement engine document selector text req r evs Hr)
        as (evs' & Hrun).
      rewrite Hrun. eexists. reflexivity.
  - intros selector text -> Hbad.
    assert (Hnone : selectorResult engine document selector = None).
    { unfold selectorResult, scopeElements. rewrite Hbad.
      now destruct (truthy selector). }
    destruct (Settles_textStrategies engine document (IDescriptor selector text) req None)
      as (r & evs & Hr).
    assert (Hr' := Hr).
    rewrite (textStrategies_selector_irrelevant engine document selector JUndefined) in Hr'.
    rewrite <- Hnone in Hr.
    destruct (Runs_findElement engine document selector text req r evs Hr) as (e1 & H1).
    destruct (Runs_findElement engine document JUndefined text req r evs Hr') as (e2 & H2).
    now rewrite H1, H2.
Qed.

(** A malformed selector next to a usable text: the Home link is found. *)
Lemma resolution_never_throws_witness :
  testEngine (toDOMString (JStr "a[")) = None
  /\ fst (findElementFromInteraction testEngine linkPage
            (IDescriptor (JStr "a[") (JStr "Home")) true [])
     = fst (findElementFromInteraction testEngine linkPage
              (IDescriptor JUndefined (JStr "Home")) true [])
  /\ fst (findElementFromInteraction testEngine linkPage
            (IDescriptor JUndefined (JStr "Home")) true [])
     = Normal (Some homeLink).
Proof.
  split; [reflexivity|]. split; [|reflexivity].
  exact (proj2 (resolution_never_throws testEngine linkPage
                  (IDescriptor (JStr "a[") (JStr "Home")) true [])
               (JStr "a[") (JStr "Home") eq_refl eq_refl).
Defined.

(** ** Several exact matches *)

Section ExactMatches.
Variable engine : SelectorEngine.
Variable document : Document.

Lemma Runs_exact_search :
  forall t,
    Runs (querySelectorAllWithText engine document interactiveScope (JStr (trim t)) true)
         (Normal (exactMatches engine document t)) [QuerySelectorAll interactiveScope].
Proof.
  intro t. unfold exactMatches.
  pose proof (Runs_querySelectorAllWithText engine document interactiveScope (trim t) true)
    as H.
  now rewrite trim_idempotent in H.
Qed.

(** Strategy 2 when the exact search is made and finds something. *)
Lemma Runs_byText_found :
  forall selector t requireExactMatch element first rest,
    t <> EmptyString ->
    requireExactMatch = true \/ element = None ->
    exactMatches engine document t = first :: rest ->
    Runs (byText engine document (IDescriptor selector (JStr t)) requireExactMatch element)
         (Normal (Some first)) [QuerySelectorAll interactiveScope].
Proof.
  intros selector t req element first rest Ht Hgate Hm. unfold byText.
  assert (Hcond : (negb (isSome element) || req)
                  && truthy (textOf (IDescriptor selector (JStr t))) = true).
  { cbn [textOf truthy].
    destruct (String.eqb_spec t EmptyString) as [|_]; [contradiction|].
    destruct Hgate as [-> | ->]; [now rewrite orb_true_r | reflexivity]. }
  rewrite Hcond. cbn [textOf callTrim].
  change [QuerySelectorAll interactiveScope]
    with (([] ++ [QuerySelectorAll interactiveScope]) ++ [])%list.
  eapply Runs_bind; [apply Runs_ret|].
  eapply Runs_bind; [apply Runs_exact_search|].
  rewrite Hm. destruct rest; apply Runs_ret.
Qed.

End ExactMatches.

(** C3, as the code has it.  When the descriptor's text is a non-empty
    string with more than one exact match in the interactive scope, and the
    text search is made at all (exact matching is required, or the selector
    resolved nothing), every call returns the first match in document order.
    Nothing about an element's rectangle enters the choice. *)
Theorem first_exact_match_wins :
  forall (engine : SelectorEngine) (document : Document) (selector : JsVal)
         (t : string) (requireExactMatch : bool) (first second : Element)
         (rest : list Element),
    t <> EmptyString ->
    requireExactMatch = true \/ selectorResult engine document selector = None ->
    exactMatches engine document t = first :: second :: rest ->
    forall log,
      fst (findElementFromInteraction engine document (IDescriptor selector (JStr t))
             requireExactMatch log) = Normal (Some first).
Proof.
  intros engine document selector t req first second rest Ht Hgate Hm log.
  assert (Hr : Runs (textStrategies engine document (IDescriptor selector (JStr t)) req
                       (selectorResult engine document selector))
                    (Normal (Some first)) ([] ++ [QuerySelectorAll interactiveScope])%list).
  { eapply Runs_bind.
    - eapply Runs_byText_found; eassumption.
    - unfold byBroaderText. cbn [isSome negb andb]. apply Runs_ret. }
  destruct (Runs_findElement engine document selector (JStr t) req _ _ Hr) as (evs & H).
  now rewrite H.
Qed.

(** On the form page the collapsed Submit button, first in document order,
    is chosen over the visible one, from any log. *)
Lemma first_exact_match_wins_witness :
  exactMatches testEngine formPage "Submit" = [hiddenSubmit; visibleSubmit]
  /\ hasValidSize (boundingRect hiddenSubmit) = false
  /\ forall log,
       fst (findElementFromInteraction testEngine formPage
              (IDescriptor (JStr "#banner") (JStr "Submit")) true log)
       = Normal (Some hiddenSubmit).
Proof.
  split; [reflexivity|]. split; [reflexivity|].
  apply (first_exact_match_wins testEngine formPage (JStr "#banner") "Submit" true
           hiddenSubmit visibleSubmit []).
  - discriminate.
  - left. reflexivity.
  - reflexivity.
Defined.

(** With exact matching not required, a selector that resolves the banner
    keeps the text search from running: the banner is returned. *)
Lemma first_exact_match_always_wins_fails :
  ~ first_exact_match_always_wins testEngine formPage
      (IDescriptor (JStr "#banner") (JStr "Submit")) false.
Proof.
  intro H.
  specialize (H "Submit" hiddenSubmit visibleSubmit [] eq_refl eq_refl []).
  discriminate H.
Qed.

(** ** Null descriptors and selector results that survive the text search *)

(** C10.  A null or undefined descriptor gives null at once: no query is
    made and the log is untouched.  And when the selector has resolved an
    element and the text is a string whose exact search finds nothing, the
    call returns the element the selector resolved. *)
Theorem null_descriptor_and_kept_selector_result :
  forall (engine : SelectorEngine) (document : Document) (requireExactMatch : bool),
    Runs (findElementFromInteraction engine document (IValue JNull) requireExactMatch)
         (Normal None) []
    /\ Runs (findElementFromInteraction engine document (IValue JUndefined)
               requireExactMatch)
            (Normal None) []
    /\ (forall selector t element,
          selectorResult engine document selector = Some element ->
          exactMatches engine document t = [] ->
          forall log,
            fst (findElementFromInteraction engine document
                   (IDescriptor selector (JStr t)) requireExactMatch log)
            = Normal (Some element)).
Proof.
  intros engine document req.
  split; [intro log; reflexivity|]. split; [intro log; reflexivity|].
  intros selector t element Hsel Hnone log.
  assert (Hr : exists evs,
             Runs (textStrategies engine document (IDescriptor selector (JStr t)) req
                     (Some element))
                  (Normal (Some element)) evs).
  { unfold textStrategies, byText. cbn [isSome negb orb textOf].
    destruct (req && truthy (JStr t)) eqn:Hcond.
    - apply andb_true_iff in Hcond. destruct Hcond as [-> _].
      exists (([] ++ ([] ++ [QuerySelectorAll interactiveScope]) ++ []))%list.
      eapply Runs_bind.
      + cbn [callTrim]. eapply Runs_bind; [apply Runs_ret|].
        eapply Runs_bind; [apply Runs_exact_search|].
        rewrite Hnone. cbn [negb]. apply Runs_ret.
      + unfold byBroaderText. cbn [isSome negb andb]. apply Runs_ret.
    - exists ([] ++ [])%list. eapply Runs_bind; [apply Runs_ret|].
      unfold byBroaderText. cbn [isSome negb andb]. apply Runs_ret. }
  destruct Hr as (evs & Hr). rewrite <- Hsel in Hr at 1.
  destruct (Runs_findElement engine document selector (JStr t) req _ _ Hr) as (evs' & H).
  now rewrite H.
Qed.

(** The banner, found by its id, survives an exact search for a text no
    button carries. *)
Lemma null_descriptor_and_kept_selector_result_witness :
  selectorResult testEngine formPage (JStr "#banner") = Some banner
  /\ exactMatches testEngine formPage "Cancel" = []
  /\ fst (findElementFromInteraction testEngine formPage
            (IDescriptor (JStr "#banner") (JStr "Cancel")) true [])
     = Normal (Some banner).
Proof.
  split; [reflexivity|]. split; [reflexivity|].
  exact (proj2 (proj2 (null_descriptor_and_kept_selector_result testEngine formPage true))
               (JStr "#banner") "Cancel" banner eq_refl eq_refl []).
Defined.

(* ================================================================== *)
(** * Part VII.  Retargeting and the previous wrapper's resources      *)
(* ================================================================== *)

(** Retargeting the highlight clears no interval, and retargeting the cursor
    disconnects no observer and removes no window listener. *)
Lemma positionHighlightOnElement_keeps_intervals :
  forall p, activeIntervals (fst (positionHighlightOnElement p)) = activeIntervals p.
Proof. reflexivity. Qed.

Lemma moveCursorToElement_keeps_observers :
  forall p o,
    In o (connectedObservers p) -> In o (connectedObservers (fst (moveCursorToElement p))).
Proof. intros p o H. cbn. now right. Qed.

(** C8 asks that starting a run for a new target first clears the previous
    run's timers and disconnects its observers.  The code at the retargeting
    scenario: the first wrapper is out of the document but still holds
    interval 1, and interval 1 is still active, so the first run keeps
    sampling its target and writing to its own, detached wrapper (the two
    runs do write to different wrappers).  [cleanupAllUI], run instead of
    retargeting, does clear the interval. *)
Theorem retargeting_leaves_interval_running :
  map attachedToBody (nodes retargeted) = [false; true]
  /\ map (fun n => positionInterval (wrapper (closure n))) (nodes retargeted)
     = [Some 1%positive; None]
  /\ activeIntervals retargeted = [1%positive]
  /\ activeIntervals (cleanupAllUI_wrappers firstRun) = [].
Proof. repeat split. Qed.

(** The same for the cursor: two observers and two window handlers remain
    after the cursor is moved to a second target. *)
Example cursor_retargeting_leaves_observer_connected :
  let after := fst (moveCursorToElement (fst (moveCursorToElement emptyPage))) in
  map attachedToBody (nodes after) = [false; true]
  /\ List.length (connectedObservers after) = 2%nat
  /\ List.length (windowListeners after) = 2%nat.
Proof. repeat split. Qed.
(* ================================================================== *)
(** * Part VIII.  Further properties of the stabilisation loop          *)
(* ================================================================== *)

(** ** Visibility is never taken back *)

Lemma updatePosition_keeps_visible :
  forall c s st,
    opacity (wrapper st) = "1"%string ->
    opacity (wrapper (updatePosition c s st)) = "1"%string.
Proof.
  intros c s st H.
  unfold updatePosition, stopAfterMaxAttempts, sampleBranch, onValidSample,
    onInvalidSample.
  repeat match goal with
         | |- context [if ?b then _ else _] => destruct b
         | |- context [match ?o with Some _ => _ | None => _ end] => destruct o
         end; cbn; try reflexivity; exact H.
Qed.

(** Once a run has made the wrapper visible, no later sample hides it. *)
Theorem visible_stays_visible :
  forall (c : Context) (h : positive) (samples more : list Sample),
    opacity (wrapper (run c h samples)) = "1"%string ->
    opacity (wrapper (run c h (samples ++ more))) = "1"%string.
Proof.
  intros c h samples more. unfold run. rewrite fold_left_app.
  generalize (fold_left (tick c) samples (startMonitoring h initialState)).
  induction more as [|s rest IH]; intros st H; [exact H|].
  cbn [fold_left]. apply IH. unfold tick.
  destruct (isSome (positionInterval (wrapper st))); [|exact H].
  now apply updatePosition_keeps_visible.
Qed.

Lemma visible_stays_visible_witness :
  opacity (wrapper (run standardContext 1 (repeat buttonSample 4))) = "1"%string
  /\ opacity (wrapper (run standardContext 1
                         (repeat buttonSample 4 ++ [collapsedSample; detachedInItem])))
     = "1"%string.
Proof.
  split; [reflexivity|].
  apply (visible_stays_visible standardContext 1 (repeat buttonSample 4)
           [collapsedSample; detachedInItem]).
  reflexivity.
Defined.

(** ** The attempt budget bounds the number of calls *)

Lemma updatePosition_attemptCounter :
  forall c s st, attemptCounter (updatePosition c s st) = (attemptCounter st + 1)%Z.
Proof.
  intros c s st. unfold updatePosition.
  destruct (stopAfterMaxAttempts_counters c (sampleBranch c s (countAttempt st)))
    as (_ & _ & H).
  rewrite H, sampleBranch_attemptCounter. reflexivity.
Qed.

Lemma updatePosition_stops_at_budget :
  forall c s st,
    (MAX_ATTEMPTS c <= attemptCounter st + 1)%Z ->
    positionInterval (wrapper (updatePosition c s st)) = None.
Proof.
  intros c s st H. unfold updatePosition, stopAfterMaxAttempts.
  rewrite sampleBranch_attemptCounter. cbn [countAttempt attemptCounter].
  destruct (Z.leb_spec (MAX_ATTEMPTS c) (attemptCounter st + 1)); [|lia].
  destruct (positionInterval (wrapper (sampleBranch c s (countAttempt st)))) eqn:E;
    cbn; [reflexivity | exact E].
Qed.

Lemma tick_budget :
  forall c n st s, Budget c n st -> Budget c (n + 1) (tick c st s).
Proof.
  intros c n st s [Hr Hm Hp]. unfold tick.
  destruct (positionInterval (wrapper st)) as [h|] eqn:Hint; cbn [isSome].
  - assert (Hlt : (attemptCounter st < MAX_ATTEMPTS c)%Z) by (apply Hp; discriminate).
    constructor; rewrite ?updatePosition_attemptCounter; try lia.
    intro Hpoll.
    destruct (Z.lt_ge_cases (attemptCounter st + 1) (MAX_ATTEMPTS c)) as [|Hge];
      [assumption|].
    exfalso. apply Hpoll. now apply updatePosition_stops_at_budget.
  - constructor; try lia. rewrite Hint. congruence.
Qed.

(** A run never makes more calls than its budget: whatever the page shows
    and however long it keeps showing it, [attemptCounter] stays at most
    [MAX_ATTEMPTS] (and at most the number of samples). *)
Theorem attempts_never_exceed_budget :
  forall (c : Context) (h : positive) (samples : list Sample),
    (0 <= attemptCounter (run c h samples) <= MAX_ATTEMPTS c)%Z
    /\ (attemptCounter (run c h samples) <= Z.of_nat (List.length samples))%Z.
Proof.
  intros c h samples.
  pose proof (MAX_ATTEMPTS_at_least_30 c) as H30.
  assert (H0 : Budget c 0 (startMonitoring h initialState)).
  { constructor; cbn; intros; lia. }
  assert (H : forall l n st, Budget c n st ->
                Budget c (n + Z.of_nat (List.length l)) (fold_left (tick c) l st)).
  { induction l as [|s rest IH]; intros n st Hb.
    - cbn. now rewrite Z.add_0_r.
    - cbn [fold_left List.length].
      replace (n + Z.of_nat (S (List.length rest)))%Z
        with ((n + 1) + Z.of_nat (List.length rest))%Z by lia.
      apply IH. now apply tick_budget. }
  destruct (H samples 0%Z _ H0) as [Hr Hm _]. fold (run c h samples) in Hr, Hm.
  lia.
Qed.

(** ** A target that never becomes measurable *)

Lemma fold_never_measurable :
  forall c h samples n,
    neverMeasurable samples ->
    (Z.of_nat (n + List.length samples) < MAX_ATTEMPTS c)%Z ->
    fold_left (tick c) samples
      (mkState zeroRect 0 (Z.of_nat n) (mkWrapper None None None "0" (Some h)))
    = mkState zeroRect 0 (Z.of_nat (n + List.length samples))
              (mkWrapper None None None "0" (Some h)).
Proof.
  intros c h samples.
  induction samples as [|s rest IH]; intros n Hnm Hlen.
  - cbn. now rewrite Nat.add_0_r.
  - inversion Hnm as [|? ? [Hinv Hnone] Hrest]; subst.
    cbn [fold_left List.length] in *.
    replace (n + S (List.length rest))%nat with (S n + List.length rest)%nat in * by lia.
    rewrite <- IH; [|assumption|lia].
    f_equal. unfold tick. cbn [wrapper positionInterval isSome].
    unfold updatePosition. rewrite sampleBranch_unpositioned by assumption.
    rewrite stopAfterMaxAttempts_below by (cbn; lia).
    unfold countAttempt. cbn [lastRect stabilityCounter attemptCounter wrapper].
    rewrite Nat2Z.inj_succ. reflexivity.
Qed.

(** While a target has neither valid geometry nor a visible ancestor, the
    wrapper stays hidden and unpositioned and polling goes on; the call that
    exhausts the budget makes the still unpositioned wrapper visible and
    stops polling. *)
Theorem never_measurable_target :
  forall (c : Context) (h : positive) (samples : list Sample),
    neverMeasurable samples ->
    (Z.of_nat (List.length samples) <= MAX_ATTEMPTS c)%Z ->
    wrapper (run c h samples)
    = if (Z.of_nat (List.length samples) <? MAX_ATTEMPTS c)%Z
      then mkWrapper None None None "0" (Some h)
      else mkWrapper None None None "1" None.
Proof.
  intros c h samples Hnm Hlen.
  pose proof (MAX_ATTEMPTS_at_least_30 c) as H30.
  destruct (Z.ltb_spec (Z.of_nat (List.length samples)) (MAX_ATTEMPTS c)) as [Hlt|Hge].
  - unfold run.
    change (startMonitoring h initialState)
      with (mkState zeroRect 0 (Z.of_nat 0) (mkWrapper None None None "0" (Some h))).
    now rewrite fold_never_measurable.
  - destruct (exists_last (l := samples)) as (front & s & ->).
    { intros ->. cbn in Hge. lia. }
    rewrite length_app in *. cbn [List.length] in *.
    apply Forall_app in Hnm. destruct Hnm as [Hfront Hs].
    inversion Hs as [|? ? [Hinv Hnone] _]; subst.
    unfold run. rewrite fold_left_app.
    change (startMonitoring h initialState)
      with (mkState zeroRect 0 (Z.of_nat 0) (mkWrapper None None None "0" (Some h))).
    rewrite fold_never_measurable by (cbn; try assumption; lia).
    cbn [fold_left]. unfold tick. cbn [wrapper positionInterval isSome].
    unfold updatePosition. rewrite sampleBranch_unpositioned by assumption.
    unfold stopAfterMaxAttempts. cbn [countAttempt attemptCounter wrapper].
    destruct (Z.leb_spec (MAX_ATTEMPTS c) (Z.of_nat (0 + List.length front) + 1));
      [reflexivity | lia].
Qed.

Lemma never_measurable_target_witness :
  wrapper (run standardContext 1 (repeat collapsedSample 29))
  = mkWrapper None None None "0" (Some 1%positive)
  /\ wrapper (run standardContext 1 (repeat collapsedSample 30))
     = mkWrapper None None None "1" None.
Proof.
  assert (H : forall n, neverMeasurable (repeat collapsedSample n)).
  { intro n. apply Forall_forall. intros s Hs.
    apply repeat_spec in Hs. subst. split; reflexivity. }
  split.
  - rewrite (never_measurable_target standardContext 1 (repeat collapsedSample 29)
               (H 29%nat)); [reflexivity | cbn; lia].
  - rewrite (never_measurable_target standardContext 1 (repeat collapsedSample 30)
               (H 30%nat)); [reflexivity | cbn; lia].
Defined.

(** [run_ends_visible] at a target that never gets a size. *)
Lemma run_ends_visible_witness :
  positionInterval (wrapper (run standardContext 1 (repeat collapsedSample 30))) = None
  /\ opacity (wrapper (run standardContext 1 (repeat collapsedSample 30))) = "1"%string.
Proof.
  apply (run_ends_visible standardContext 1 (repeat collapsedSample 30)).
  cbn. lia.
Defined.

(** ** A shift after stabilisation *)



(* ================================================================== *)
(** * Part IX.  Modal detection                                        *)
(* ================================================================== *)

(** ** The sort *)

Lemma insertByZIndex_perm :
  forall a l, Permutation (a :: l) (insertByZIndex a l).
Proof.
  intros a l. induction l as [|b rest IH]; cbn; [reflexivity|].
  destruct (zIndexOf a <? zIndexOf b)%Z; [|reflexivity].
  rewrite perm_swap. now constructor.
Qed.

Lemma sortByZIndex_perm :
  forall l, Permutation l (sortByZIndex l).
Proof.
  induction l as [|a rest IH]; cbn; [constructor|].
  rewrite <- insertByZIndex_perm. now constructor.
Qed.

Lemma head_insertByZIndex :
  forall a l,
    head (insertByZIndex a l)
    = match head l with
      | Some b => if (zIndexOf a <? zIndexOf b)%Z then Some b else Some a
      | None => Some a
      end.
Proof.
  intros a [|b rest]; cbn; [reflexivity|].
  now destruct (zIndexOf a <? zIndexOf b)%Z.
Qed.

Lemma head_sortByZIndex : forall l, head (sortByZIndex l) = topmost l.
Proof.
  induction l as [|a rest IH]; cbn; [reflexivity|].
  now rewrite head_insertByZIndex, IH.
Qed.

Lemma topmost_spec :
  forall l m,
    topmost l = Some m ->
    exists pre post,
      l = (pre ++ m :: post)%list
      /\ (forall x, In x pre -> (zIndexOf x < zIndexOf m)%Z)
      /\ (forall x, In x post -> (zIndexOf x <= zIndexOf m)%Z).
Proof.
  induction l as [|a rest IH]; intros m H; [discriminate|].
  cbn in H. destruct (topmost rest) as [b|] eqn:Hb.
  - destruct (Z.ltb_spec (zIndexOf a) (zIndexOf b)) as [Hlt|Hge].
    + inversion H; subst b.
      destruct (IH m eq_refl) as (pre & post & -> & Hpre & Hpost).
      exists (a :: pre), post. repeat split; [|assumption].
      intros x [<-|Hx]; [assumption | now apply Hpre].
    + inversion H; subst a.
      destruct (IH b eq_refl) as (pre & post & Hl & Hpre & Hpost).
      exists [], rest. repeat split; [intros x []|].
      intros x Hx. rewrite Hl in Hx. apply in_app_or in Hx.
      destruct Hx as [Hx|[<-|Hx]].
      * specialize (Hpre x Hx). lia.
      * lia.
      * specialize (Hpost x Hx). lia.
  - inversion H; subst a. exists [], rest. repeat split; [intros x []|].
    intros x Hx. destruct rest as [|r rest']; [destruct Hx|].
    cbn in Hb. destruct (topmost rest'); [destruct (_ <? _)%Z|]; discriminate.
Qed.

Lemma topmost_none : forall l, topmost l = None -> l = [].
Proof.
  intros [|a rest]; [reflexivity|]. cbn.
  destruct (topmost rest); [destruct (_ <? _)%Z|]; discriminate.
Qed.

Lemma filter_split :
  forall (A : Type) (f : A -> bool) l pre m post,
    filter f l = (pre ++ m :: post)%list ->
    exists pre' post',
      l = (pre' ++ m :: post')%list
      /\ filter f pre' = pre /\ filter f post' = post /\ f m = true.
Proof.
  intros A f. induction l as [|a rest IH]; intros pre m post H.
  - destruct pre; discriminate.
  - cbn in H. destruct (f a) eqn:Fa.
    + destruct pre as [|p pre].
      * inversion H; subst. exists [], rest. repeat split; assumption.
      * inversion H; subst.
        destruct (IH pre m post H2) as (pre' & post' & -> & Hp & Hq & Hm).
        exists (p :: pre'), post'. cbn. rewrite Fa, Hp. auto.
    + destruct (IH pre m post H) as (pre' & post' & -> & Hp & Hq & Hm).
      exists (a :: pre'), post'. cbn. rewrite Fa. auto.
Qed.

(** The active modal is a visible modal of the largest z-index and, among
    those, the first in document order; there is none exactly when no modal
    is visible. *)
Theorem activeModal_is_topmost_visible :
  forall modals : list ModalNode,
    (activeModal modals = None <->
     forall m, In m modals -> isVisibleModal m = false)
    /\ (forall m,
          activeModal modals = Some m ->
          exists pre post,
            modals = (pre ++ m :: post)%list
            /\ isVisibleModal m = true
            /\ (forall x, In x pre -> isVisibleModal x = true ->
                          (zIndexOf x < zIndexOf m)%Z)
            /\ (forall x, In x post -> isVisibleModal x = true ->
                          (zIndexOf x <= zIndexOf m)%Z)).
Proof.
  intro modals. unfold activeModal. rewrite head_sortByZIndex. split.
  - split.
    + intros H m Hin. apply topmost_none in H.
      destruct (isVisibleModal m) eqn:Hv; [|reflexivity].
      assert (Hf : In m (filter isVisibleModal modals)) by (apply filter_In; auto).
      rewrite H in Hf. destruct Hf.
    + intro H. destruct (filter isVisibleModal modals) as [|a rest] eqn:E; [reflexivity|].
      assert (Ha : In a (filter isVisibleModal modals)) by (rewrite E; now left).
      apply filter_In in Ha. destruct Ha as [Hin Hv].
      rewrite (H a Hin) in Hv. discriminate.
  - intros m H.
    destruct (topmost_spec _ _ H) as (pre & post & Hsplit & Hpre & Hpost).
    destruct (filter_split _ _ _ _ _ _ Hsplit) as (pre' & post' & -> & Hp & Hq & Hm).
    exists pre', post'. repeat split; [assumption| |].
    + intros x Hx Hv. apply Hpre. rewrite <- Hp. apply filter_In. auto.
    + intros x Hx Hv. apply Hpost. rewrite <- Hq. apply filter_In. auto.
Qed.

(** With the hidden dialog, the dialog and the toast layer on the page, the
    toast layer is the active modal. *)
Lemma activeModal_is_topmost_visible_witness :
  activeModal [hiddenDialog; dialog; toastLayer] = Some toastLayer
  /\ exists pre post,
       [hiddenDialog; dialog; toastLayer] = (pre ++ toastLayer :: post)%list
       /\ isVisibleModal toastLayer = true
       /\ (forall x, In x pre -> isVisibleModal x = true ->
                     (zIndexOf x < zIndexOf toastLayer)%Z)
       /\ (forall x, In x post -> isVisibleModal x = true ->
                     (zIndexOf x <= zIndexOf toastLayer)%Z).
Proof.
  split; [reflexivity|].
  exact (proj2 (activeModal_is_topmost_visible [hiddenDialog; dialog; toastLayer])
               toastLayer eq_refl).
Defined.

(** The sort keeps the elements, orders them by non-increasing z-index and
    keeps elements of equal z-index in their original order. *)
Lemma insertByZIndex_sorted :
  forall a l,
    StronglySorted (fun x y => (zIndexOf y <= zIndexOf x)%Z) l ->
    StronglySorted (fun x y => (zIndexOf y <= zIndexOf x)%Z) (insertByZIndex a l).
Proof.
  intros a l H. induction H as [|b rest Hs IH Hall]; cbn.
  - constructor; constructor.
  - destruct (Z.ltb_spec (zIndexOf a) (zIndexOf b)) as [Hlt|Hge].
    + constructor; [assumption|].
      apply Forall_forall. intros x Hx.
      apply (Permutation_in x (Permutation_sym
               (insertByZIndex_perm a rest))) in Hx.
      destruct Hx as [<-|Hx]; [lia|].
      rewrite Forall_forall in Hall. now apply Hall.
    + constructor; [now constructor|].
      constructor; [assumption|].
      rewrite Forall_forall in *. intros x Hx. specialize (Hall x Hx). lia.
Qed.

Lemma insertByZIndex_stable :
  forall a l k,
    StronglySorted (fun x y => (zIndexOf y <= zIndexOf x)%Z) l ->
    filter (fun x => (zIndexOf x =? k)%Z) (insertByZIndex a l)
    = filter (fun x => (zIndexOf x =? k)%Z) (a :: l).
Proof.
  intros a l k H. induction H as [|b rest Hs IH Hall]; [reflexivity|].
  cbn [insertByZIndex].
  destruct (Z.ltb_spec (zIndexOf a) (zIndexOf b)) as [Hlt|Hge]; [|reflexivity].
  cbn [filter] in *. rewrite IH.
  destruct (Z.eqb_spec (zIndexOf a) k), (Z.eqb_spec (zIndexOf b) k);
    try reflexivity; lia.
Qed.

Theorem sortByZIndex_is_stable_sort :
  forall l : list ModalNode,
    Permutation l (sortByZIndex l)
    /\ StronglySorted (fun x y => (zIndexOf y <= zIndexOf x)%Z) (sortByZIndex l)
    /\ forall k, filter (fun x => (zIndexOf x =? k)%Z) (sortByZIndex l)
                 = filter (fun x => (zIndexOf x =? k)%Z) l.
Proof.
  intro l. split; [apply sortByZIndex_perm|].
  induction l as [|a rest [IHs IHk]]; cbn [sortByZIndex].
  - split; [constructor | reflexivity].
  - split; [now apply insertByZIndex_sorted|].
    intro k. rewrite insertByZIndex_stable by assumption.
    cbn [filter]. now rewrite IHk.
Qed.

(** ** The context of a target *)

(** A target gets modal timing only from the active modal: inside an
    expanded navigation panel it gets navigation timing, otherwise modal
    timing exactly when the active modal contains it. *)
Theorem context_follows_active_modal :
  forall (modals : list ModalNode) (closestExpanded : bool),
    timing (detectContext modals closestExpanded)
    = if closestExpanded then (60, 80, 400)%Z
      else match activeModal modals with
           | Some m => if containsTarget m then (50, 100, 300)%Z else (30, 50, 0)%Z
           | None => (30, 50, 0)%Z
           end.
Proof.
  intros modals closestExpanded. unfold detectContext.
  destruct closestExpanded; [reflexivity|].
  destruct (activeModal modals) as [m|]; [|reflexivity].
  now destruct (containsTarget m).
Qed.

(* ================================================================== *)
(** * Part X.  Dragging the start button                               *)
(* ================================================================== *)

Lemma bounded_range :
  forall maxV x, 0 <= maxV -> 0 <= bounded maxV x /\ bounded maxV x <= maxV.
Proof.
  intros maxV x H. unfold bounded. split.
  - apply Q.le_max_l.
  - apply Q.max_lub; [assumption | apply Q.le_min_l].
Qed.


Lemma bounded_too_wide : forall maxV x, maxV <= 0 -> bounded maxV x == 0.
Proof.
  intros maxV x H. unfold bounded. apply Q.max_l.
  apply Qle_trans with maxV; [apply Q.le_min_l | assumption].
Qed.

(** While the button fits in the window, a mouse move during a drag leaves
    it entirely inside the viewport, wherever the pointer is. *)
Theorem dragged_button_stays_in_viewport :
  forall (clientX clientY : Q) (f : DragFrame) (d : DragState),
    isDragging d = true ->
    buttonWidth f <= viewportWidth f ->
    buttonHeight f <= viewportHeight f ->
    insideViewport f (handleMouseMove clientX clientY f d).
Proof.
  intros x y f d Hd Hw Hh. unfold handleMouseMove. rewrite Hd. cbn [negb].
  unfold insideViewport. cbn [styleLeft styleTop].
  eexists _, _. split; [reflexivity|]. split; [reflexivity|].
  destruct (bounded_range (viewportWidth f - buttonWidth f) (x - offsetX d)) as [A B];
    [lra|].
  destruct (bounded_range (viewportHeight f - buttonHeight f) (y - offsetY d)) as [C D];
    [lra|].
  repeat split; lra.
Qed.

(** The pointer far outside the window: the button stops at the edge. *)
Lemma dragged_button_stays_in_viewport_witness :
  insideViewport desktopFrame
    (handleMouseMove 5000 (-300) desktopFrame
       (handleMouseDown 30 710 startButtonRect newDragState)).
Proof.
  apply dragged_button_stays_in_viewport; [reflexivity | cbn; lra | cbn; lra].
Defined.

(** A button wider than the window is pinned to the left edge. *)
Lemma dragged_wide_button_is_pinned :
  forall x y f d l,
    isDragging d = true ->
    viewportWidth f <= buttonWidth f ->
    styleLeft (handleMouseMove x y f d) = Some l -> l == 0.
Proof.
  intros x y f d l Hd Hw. unfold handleMouseMove. rewrite Hd. cbn.
  intro H. inversion H. apply bounded_too_wide. lra.
Qed.



(** ** The life cycle of the document listeners *)

Lemma dispatch_listeners_iff_dragging :
  forall d e,
    documentListeners d = isDragging d ->
    documentListeners (dispatch d e) = isDragging (dispatch d e).
Proof.
  intros d e H. destruct e as [x y r | x y f | r ok]; cbn [dispatch].
  - reflexivity.
  - rewrite H. unfold handleMouseMove.
    destruct (isDragging d) eqn:E; cbn; congruence.
  - rewrite H. unfold handleMouseUp.
    destruct (isDragging d) eqn:E; cbn; congruence.
Qed.

(** Whatever mouse events arrive and in whatever order, the document-level
    listeners are registered exactly while a drag is in progress. *)
Theorem listeners_registered_iff_dragging :
  forall events : list MouseEvent,
    documentListeners (fold_left dispatch events newDragState)
    = isDragging (fold_left dispatch events newDragState).
Proof.
  intro events.
  assert (H : forall l d, documentListeners d = isDragging d ->
                documentListeners (fold_left dispatch l d)
                = isDragging (fold_left dispatch l d)).
  { induction l as [|e rest IH]; intros d Hd; [exact Hd|].
    cbn [fold_left]. apply IH. now apply dispatch_listeners_iff_dragging. }
  now apply H.
Qed.

(** After the button is released, mouse moves and further releases change
    nothing until the next press. *)
Theorem released_button_ignores_moves :
  forall (events : list MouseEvent) (d : DragState),
    isDragging d = false ->
    documentListeners d = false ->
    Forall (fun e => match e with MouseDown _ _ _ => False | _ => True end) events ->
    fold_left dispatch events d = d.
Proof.
  intros events d Hd Hl Hev. induction Hev as [|e rest He _ IH]; [reflexivity|].
  cbn [fold_left].
  destruct e as [x y r | x y f | r ok]; [destruct He | |]; cbn; now rewrite Hl.
Qed.

Lemma released_button_ignores_moves_witness :
  let released := fold_left dispatch
                    [MouseDown 30 710 startButtonRect;
                     MouseMove 430 210 desktopFrame;
                     MouseUp (Rect.mk 200 420 120 40) true] newDragState in
  fold_left dispatch [MouseMove 900 600 desktopFrame;
                      MouseUp (Rect.mk 0 0 120 40) true;
                      MouseMove 10 10 desktopFrame] released
  = released.
Proof.
  intro released.
  apply (released_button_ignores_moves
           [MouseMove 900 600 desktopFrame; MouseUp (Rect.mk 0 0 120 40) true;
            MouseMove 10 10 desktopFrame] released); [reflexivity | reflexivity|].
  repeat constructor.
Defined.

(** A completed drag stores the rectangle the button has at release, when
    the storage accepts it; a failing storage keeps the earlier entry. *)
Theorem release_saves_position :
  forall (r : DOMRect) (storageWorks : bool) (d : DragState),
    isDragging d = true ->
    savedPosition (handleMouseUp r storageWorks d)
    = (if storageWorks then Some (Rect.left r, Rect.top r) else savedPosition d)
    /\ isDragging (handleMouseUp r storageWorks d) = false
    /\ buttonOpacity (handleMouseUp r storageWorks d) = "1"%string.
Proof.
  intros r ok d H. unfold handleMouseUp. rewrite H. cbn. auto.
Qed.

(* ================================================================== *)
(** * Part XI.  Comparing URLs                                         *)
(* ================================================================== *)

Lemma compareUrls_nonempty :
  forall parser url1 url2,
    url1 <> EmptyString -> url2 <> EmptyString ->
    compareUrls parser url1 url2
    = if isLocalhost (parseUrl parser url1) || isLocalhost (parseUrl parser url2)
      then String.eqb (pathname (parseUrl parser url1)) (pathname (parseUrl parser url2))
      else String.eqb (toLowerCase (hostname (parseUrl parser url1)))
                      (toLowerCase (hostname (parseUrl parser url2)))
           && String.eqb (pathname (parseUrl parser url1))
                         (pathname (parseUrl parser url2)).
Proof.
  intros parser url1 url2 H1 H2. unfold compareUrls.
  destruct (String.eqb_spec url1 EmptyString); [contradiction|].
  destruct (String.eqb_spec url2 EmptyString); [contradiction|].
  reflexivity.
Qed.

(** The comparison is symmetric. *)
Theorem compareUrls_symmetric :
  forall (parser : UrlParser) (url1 url2 : string),
    compareUrls parser url1 url2 = compareUrls parser url2 url1.
Proof.
  intros parser url1 url2. unfold compareUrls.
  rewrite (orb_comm (String.eqb url1 EmptyString)).
  destruct (String.eqb url2 EmptyString || String.eqb url1 EmptyString); [reflexivity|].
  cbv zeta.
  rewrite (orb_comm (isLocalhost (parseUrl parser url1))).
  rewrite (String.eqb_sym (pathname (parseUrl parser url1))).
  rewrite (String.eqb_sym (toLowerCase (hostname (parseUrl parser url1)))).
  reflexivity.
Qed.

(** A URL equals itself exactly when it is not empty. *)
Theorem compareUrls_reflexive_unless_empty :
  forall (parser : UrlParser) (url : string),
    compareUrls parser url url = negb (String.eqb url EmptyString).
Proof.
  intros parser url. unfold compareUrls.
  destruct (String.eqb url EmptyString); [reflexivity|]. cbn [orb negb]. cbv zeta.
  rewrite !String.eqb_refl. now destruct (isLocalhost _ || isLocalhost _).
Qed.

Lemma hasHttpScheme_http : forall url, hasHttpScheme ("http://" ++ url) = true.
Proof.
  intro url. unfold hasHttpScheme. apply orb_true_iff. left.
  apply prefix_true_iff. now exists url.
Qed.

(** A URL written without a scheme is read as an http URL. *)
Theorem compareUrls_default_scheme :
  forall (parser : UrlParser) (url other : string),
    url <> EmptyString ->
    hasHttpScheme url = false ->
    compareUrls parser url other = compareUrls parser ("http://" ++ url) other.
Proof.
  intros parser url other Hne Hs.
  assert (Hp : parseUrl parser url = parseUrl parser ("http://" ++ url)).
  { unfold parseUrl. now rewrite Hs, hasHttpScheme_http. }
  unfold compareUrls. rewrite Hp.
  destruct (String.eqb_spec url EmptyString); [contradiction|].
  reflexivity.
Qed.

Lemma compareUrls_default_scheme_witness :
  compareUrls testUrlParser "Example.com/docs/" "https://example.com/docs?tab=2#top"
  = compareUrls testUrlParser "http://Example.com/docs/"
      "https://example.com/docs?tab=2#top"
  /\ compareUrls testUrlParser "http://Example.com/docs/"
       "https://example.com/docs?tab=2#top" = true.
Proof.
  split; [|reflexivity].
  apply compareUrls_default_scheme; [discriminate | reflexivity].
Defined.

(** ** What decides the comparison *)

(** Two non-empty URLs that the browser can parse compare equal exactly when
    their paths agree up to one trailing slash and either one of the hosts
    names localhost or 127.0.0.1, or the hosts agree up to letter case.  The
    query and the fragment play no part. *)
Theorem compareUrls_decided_by_host_and_path :
  forall (parser : UrlParser) (url1 url2 : string) (p1 p2 : ParsedUrl),
    url1 <> EmptyString -> url2 <> EmptyString ->
    parser (if hasHttpScheme url1 then url1 else "http://" ++ url1) = Some p1 ->
    parser (if hasHttpScheme url2 then url2 else "http://" ++ url2) = Some p2 ->
    (compareUrls parser url1 url2 = true <->
     orRoot (removeTrailingSlash (pathname p1)) = orRoot (removeTrailingSlash (pathname p2))
     /\ (isLocalhost p1 = true \/ isLocalhost p2 = true
         \/ equalIgnoringCase (hostname p1) (hostname p2))).
Proof.
  intros parser url1 url2 p1 p2 H1 H2 Hp1 Hp2.
  rewrite compareUrls_nonempty by assumption.
  unfold parseUrl. rewrite Hp1, Hp2. unfold isLocalhost, equalIgnoringCase.
  cbn [hostname pathname].
  destruct (includes (hostname p1) "localhost" || includes (hostname p1) "127.0.0.1");
    cbn [orb].
  - rewrite String.eqb_eq. tauto.
  - destruct (includes (hostname p2) "localhost" || includes (hostname p2) "127.0.0.1").
    + rewrite String.eqb_eq. tauto.
    + rewrite andb_true_iff, !String.eqb_eq.
      split; [intros [A B]; auto | intros [B [C|[C|C]]]; try discriminate; auto].
Qed.

Lemma compareUrls_decided_by_host_and_path_witness :
  compareUrls testUrlParser "localhost:3000/settings/" "https://app.example.com/settings"
  = true
  <-> orRoot (removeTrailingSlash "/settings/") = orRoot (removeTrailingSlash "/settings")
      /\ (isLocalhost (mkParsedUrl "localhost" "/settings/" "" "") = true
          \/ isLocalhost (mkParsedUrl "app.example.com" "/settings" "" "") = true
          \/ equalIgnoringCase "localhost" "app.example.com").
Proof.
  apply (compareUrls_decided_by_host_and_path testUrlParser
           "localhost:3000/settings/" "https://app.example.com/settings"
           (mkParsedUrl "localhost" "/settings/" "" "")
           (mkParsedUrl "app.example.com" "/settings" "" ""));
    first [discriminate | reflexivity].
Defined.

(** ** Trailing slashes *)

Lemma removeTrailingSlash_app_slash :
  forall p, removeTrailingSlash (p ++ "/") = p.
Proof.
  induction p as [|ch rest IH]; [reflexivity|].
  cbn [append removeTrailingSlash]. rewrite IH.
  destruct rest; reflexivity.
Qed.

(** Exactly one trailing slash of the path is dropped, and an empty path is
    read as the root: a path [p] followed by a slash is normalised to [p],
    or to the root when [p] is empty. *)
Theorem parseUrl_drops_one_trailing_slash :
  forall (parser : UrlParser) (url : string) (host p query fragment : string),
    hasHttpScheme url = true ->
    parser url = Some (mkParsedUrl host (p ++ "/") query fragment) ->
    pathname (parseUrl parser url) = (if String.eqb p EmptyString then "/" else p).
Proof.
  intros parser url host p query fragment Hs Hp.
  unfold parseUrl. rewrite Hs, Hp. cbn [pathname].
  now rewrite removeTrailingSlash_app_slash.
Qed.

Lemma parseUrl_drops_one_trailing_slash_witness :
  pathname (parseUrl testUrlParser "https://example.com/a//") = "/a/"
  /\ pathname (parseUrl testUrlParser "https://example.com/") = "/".
Proof.
  split.
  - exact (parseUrl_drops_one_trailing_slash testUrlParser "https://example.com/a//"
             "example.com" "/a/" "" "" eq_refl eq_refl).
  - exact (parseUrl_drops_one_trailing_slash testUrlParser "https://example.com/"
             "example.com" "" "" "" eq_refl eq_refl).
Defined.

(** ** URLs the browser rejects *)

(** When the URL constructor throws, the text up to the first slash of the
    URL (with its default scheme) is taken as the host, so that every
    rejected http URL gets the host [http:]: two such URLs compare equal
    exactly when what follows the first slash is the same. *)
Theorem compareUrls_rejected_urls :
  forall (parser : UrlParser) (rest1 rest2 : string),
    parser ("http://" ++ rest1) = None ->
    parser ("http://" ++ rest2) = None ->
    compareUrls parser ("http://" ++ rest1) ("http://" ++ rest2)
    = String.eqb rest1 rest2.
Proof.
  intros parser rest1 rest2 H1 H2.
  rewrite compareUrls_nonempty by discriminate.
  unfold parseUrl. rewrite !hasHttpScheme_http, H1, H2.
  cbn. reflexivity.
Qed.

(** A host with a space is rejected by the browser. *)
Lemma compareUrls_rejected_urls_witness :
  compareUrls testUrlParser ("http://" ++ "my host/a") ("http://" ++ "my host/A")
  = String.eqb "my host/a" "my host/A".
Proof.
  apply compareUrls_rejected_urls; reflexivity.
Defined.

(* ================================================================== *)
(** * Part XII.  Further properties of element resolution              *)
(* ================================================================== *)

(** ** Finding one element by text *)

Lemma head_filter_spec :
  forall (A : Type) (f : A -> bool) (l : list A),
    match head (filter f l) with
    | Some a =>
        exists pre post,
          l = (pre ++ a :: post)%list /\ f a = true
          /\ forall x, In x pre -> f x = false
    | None => forall x, In x l -> f x = false
    end.
Proof.
  intros A f. induction l as [|a rest IH]; cbn; [intros x []|].
  destruct (f a) eqn:Fa; cbn.
  - exists [], rest. repeat split; [assumption | intros x []].
  - destruct (head (filter f rest)) as [b|].
    + destruct IH as (pre & post & -> & Fb & Hpre).
      exists (a :: pre), post. repeat split; [assumption|].
      intros x [<-|Hx]; [assumption | now apply Hpre].
    + intros x [<-|Hx]; [assumption | now apply IH].
Qed.

(** For a scope selector the engine accepts and a string text,
    [findElementByText] makes one query and returns the first element of
    the scope, in document order, that passes the match test, or null when
    none does. *)
Theorem findElementByText_first_match :
  forall (engine : SelectorEngine) (document : Document) (selector text : string)
         (exact : bool) (scope : list Element),
    scopeElements engine document selector = Some scope ->
    exists found,
      Runs (findElementByText engine document selector (JStr text) exact)
           (Normal found) [QuerySelectorAll selector]
      /\ match found with
         | Some el =>
             exists pre post,
               scope = (pre ++ el :: post)%list
               /\ matchesText exact text el
               /\ forall x, In x pre -> ~ matchesText exact text x
         | None => forall x, In x scope -> ~ matchesText exact text x
         end.
Proof.
  intros engine document selector text exact scope Hscope.
  exists (head (filter (textMatches exact (trim text)) scope)). split.
  - unfold findElementByText.
    change [QuerySelectorAll selector] with ([] ++ [QuerySelectorAll selector])%list.
    eapply Runs_bind; [|apply Runs_ret].
    pose proof (Runs_querySelectorAllWithText engine document selector text exact) as H.
    now rewrite Hscope in H.
  - pose proof (head_filter_spec _ (textMatches exact (trim text)) scope) as H.
    destruct (head (filter (textMatches exact (trim text)) scope)) as [el|].
    + destruct H as (pre & post & -> & Hel & Hpre).
      exists pre, post. split; [reflexivity|]. split; [now apply textMatches_iff|].
      intros x Hx Hm. apply textMatches_iff in Hm. rewrite (Hpre x Hx) in Hm.
      discriminate.
    + intros x Hx Hm. apply textMatches_iff in Hm. rewrite (H x Hx) in Hm.
      discriminate.
Qed.

Lemma findElementByText_first_match_witness :
  exists found,
    Runs (findElementByText testEngine formPage "*" (JStr "SUBMIT") false)
         (Normal found) [QuerySelectorAll "*"]
    /\ match found with
       | Some el =>
           exists pre post,
             formPage = (pre ++ el :: post)%list
             /\ matchesText false "SUBMIT" el
             /\ forall x, In x pre -> ~ matchesText false "SUBMIT" x
       | None => forall x, In x formPage -> ~ matchesText false "SUBMIT" x
       end.
Proof.
  exact (findElementByText_first_match testEngine formPage "*" "SUBMIT" false
           formPage eq_refl).
Defined.

(** A selector the engine rejects, or a text that is not a string, makes
    [findElementByText] return null; it never throws. *)
Theorem findElementByText_degrades_to_null :
  forall (engine : SelectorEngine) (document : Document) (selector : string)
         (text : JsVal) (exact : bool),
    engine selector = None \/ (forall s, text <> JStr s) ->
    Runs (findElementByText engine document selector text exact)
         (Normal None) [QuerySelectorAll selector].
Proof.
  intros engine document selector text exact H.
  unfold findElementByText.
  change [QuerySelectorAll selector] with ([] ++ [QuerySelectorAll selector])%list.
  apply (Runs_bind _ _ _ _ (@nil Element) (Normal None) [QuerySelectorAll selector] []);
    [|intro log; reflexivity].
  unfold querySelectorAllWithText.
  pose proof (Runs_querySelectorAll engine document selector) as Hq.
  unfold scopeElements in Hq.
  destruct (engine selector) as [m|] eqn:He.
  - destruct H as [H|H]; [discriminate|].
    pose proof (Runs_filter_other exact text (filter (m document) document) H) as Hf.
    destruct (filter (m document) document) as [|el rest].
    + apply Runs_tryCatch.
      change [QuerySelectorAll selector] with ([] ++ [QuerySelectorAll selector])%list.
      eapply Runs_bind; [exact Hq | exact Hf].
    + change [QuerySelectorAll selector]
        with ([] ++ ([] ++ [QuerySelectorAll selector]))%list.
      eapply Runs_tryCatch_thrown; [|apply Runs_ret].
      eapply Runs_bind; [exact Hq | exact Hf].
  - change [QuerySelectorAll selector] with ([] ++ [QuerySelectorAll selector])%list.
    eapply Runs_tryCatch_thrown; [|apply Runs_ret].
    now apply Runs_bind_thrown.
Qed.

Lemma findElementByText_degrades_to_null_witness :
  Runs (findElementByText testEngine formPage "a[" (JStr "Submit") true)
       (Normal None) [QuerySelectorAll "a["]
  /\ Runs (findElementByText testEngine formPage "*" (JNum 7) true)
          (Normal None) [QuerySelectorAll "*"].
Proof.
  split.
  - apply findElementByText_degrades_to_null. left. reflexivity.
  - apply findElementByText_degrades_to_null. right. discriminate.
Defined.

(** ** The three strategies as a table *)

Section Table.
Variable engine : SelectorEngine.
Variable document : Document.

Lemma Runs_partial_search :
  forall selector t,
    Runs (querySelectorAllWithText engine document selector (JStr t) false)
         (Normal (partialMatches engine document selector t))
         [QuerySelectorAll selector].
Proof.
  intros selector t. unfold partialMatches.
  apply Runs_querySelectorAllWithText.
Qed.

Lemma Runs_partial_search_trimmed :
  forall selector t,
    Runs (querySelectorAllWithText engine document selector (JStr (trim t)) false)
         (Normal (partialMatches engine document selector t))
         [QuerySelectorAll selector].
Proof.
  intros selector t. unfold partialMatches.
  pose proof (Runs_querySelectorAllWithText engine document selector (trim t) false) as H.
  now rewrite trim_idempotent in H.
Qed.

Lemma truthy_string : forall t, t <> EmptyString -> truthy (JStr t) = true.
Proof.
  intros t Ht. cbn. now destruct (String.eqb_spec t EmptyString).
Qed.

(** Strategy 2 on a non-empty string, when its gate is open. *)
Lemma Settles_byText_string :
  forall selector t requireExactMatch element,
    t <> EmptyString ->
    requireExactMatch = true \/ element = None ->
    exists evs,
      Runs (byText engine document (IDescriptor selector (JStr t))
              requireExactMatch element)
           (Normal
              (match exactMatches engine document t with
               | first :: _ => Some first
               | [] =>
                   if requireExactMatch then element
                   else match partialMatches engine document interactiveScope t with
                        | first :: _ => Some first
                        | [] => element
                        end
               end)) evs.
Proof.
  intros selector t req element Ht Hgate.
  destruct (exactMatches engine document t) as [|first rest] eqn:Hm.
  2:{ eexists. eapply Runs_byText_found; eassumption. }
  unfold byText.
  assert (Hcond : (negb (isSome element) || req)
                  && truthy (textOf (IDescriptor selector (JStr t))) = true).
  { cbn [textOf]. rewrite (truthy_string t Ht).
    destruct Hgate as [-> | ->]; [now rewrite orb_true_r | reflexivity]. }
  rewrite Hcond. cbn [textOf callTrim].
  destruct req; cbn [negb].
  - eexists. eapply Runs_bind; [apply Runs_ret|].
    eapply Runs_bind; [apply Runs_exact_search|].
    rewrite Hm. apply Runs_ret.
  - eexists. eapply Runs_bind; [apply Runs_ret|].
    eapply Runs_bind; [apply Runs_exact_search|].
    rewrite Hm.
    eapply Runs_bind; [apply Runs_partial_search_trimmed|].
    destruct (partialMatches engine document interactiveScope t); apply Runs_ret.
Qed.

Lemma Settles_textStrategies_table :
  forall selector t requireExactMatch,
    exists evs,
      Runs (textStrategies engine document (IDescriptor selector (JStr t))
              requireExactMatch (selectorResult engine document selector))
           (Normal (resolutionTable engine document selector t requireExactMatch)) evs.
Proof.
  intros selector t req. unfold resolutionTable, textStrategies.
  set (bySel := selectorResult engine document selector).
  destruct (String.eqb_spec t EmptyString) as [->|Ht].
  - (* an empty text is falsy: strategies 2 and 3 are skipped *)
    eexists. eapply Runs_bind.
    + unfold byText. cbn [textOf truthy String.eqb negb].
      rewrite andb_false_r. apply Runs_ret.
    + unfold byBroaderText. cbn [textOf truthy String.eqb negb].
      rewrite andb_false_r. apply Runs_ret.
  - destruct req.
    + (* exact mode: strategy 2 runs, strategy 3 never *)
      destruct (Settles_byText_string selector t true bySel Ht (or_introl eq_refl))
        as (evs & H2).
      eexists. eapply Runs_bind; [exact H2|].
      unfold byBroaderText. cbn [negb]. rewrite andb_false_r. cbn [andb].
      destruct (exactMatches engine document t); apply Runs_ret.
    + destruct bySel as [element|] eqn:Hsel.
      * (* the selector resolved: no text search *)
        eexists. eapply Runs_bind.
        -- unfold byText. cbn [isSome negb orb andb]. apply Runs_ret.
        -- unfold byBroaderText. cbn [isSome negb andb]. apply Runs_ret.
      * destruct (Settles_byText_string selector t false None Ht (or_intror eq_refl))
          as (evs & H2).
        destruct (exactMatches engine document t) as [|first rest].
        -- destruct (partialMatches engine document interactiveScope t) as [|p ps].
           ++ eexists. eapply Runs_bind; [exact H2|].
              unfold byBroaderText. cbn [isSome negb andb textOf].
              rewrite (truthy_string t Ht).
              eapply Runs_bind; [apply Runs_partial_search|].
              destruct (partialMatches engine document "*" t); apply Runs_ret.
           ++ eexists. eapply Runs_bind; [exact H2|].
              unfold byBroaderText. cbn [isSome negb andb]. apply Runs_ret.
        -- eexists. eapply Runs_bind; [exact H2|].
           unfold byBroaderText. cbn [isSome negb andb]. apply Runs_ret.
Qed.

End Table.

Lemma findElement_by_table :
  forall (engine : SelectorEngine) (document : Document) (selector : JsVal)
         (t : string) (requireExactMatch : bool) (log : list Event),
    fst (findElementFromInteraction engine document (IDescriptor selector (JStr t))
           requireExactMatch log)
    = Normal (resolutionTable engine document selector t requireExactMatch).
Proof.
  intros engine document selector t req log.
  destruct (Settles_textStrategies_table engine document selector t req) as (evs & H).
  destruct (Runs_findElement engine document selector (JStr t) req _ _ H) as (evs' & H').
  now rewrite H'.
Qed.

(** For a descriptor whose text is a string, the call returns what the
    table says.  An empty text leaves the selector's result.  In exact mode
    the first exact match in the interactive scope wins over the selector's
    result, which is only the fallback.  Otherwise the selector's result
    wins, then the first exact match, then the first element of the
    interactive scope that contains the text up to letter case, then the
    first such element of the whole document. *)
Theorem resolution_follows_table :
  forall (engine : SelectorEngine) (document : Document) (selector : JsVal)
         (t : string) (requireExactMatch : bool) (log : list Event),
    fst (findElementFromInteraction engine document (IDescriptor selector (JStr t))
           requireExactMatch log)
    = Normal (resolutionTable engine document selector t requireExactMatch).
Proof. exact findElement_by_table. Qed.

(** On the help page no button or link reads Save, so only the inexact mode
    finds the paragraph that mentions it. *)
Example resolution_on_help_page :
  fst (findElementFromInteraction testEngine helpPage
         (IDescriptor JUndefined (JStr " save ")) false [])
  = Normal (Some paragraph)
  /\ fst (findElementFromInteraction testEngine helpPage
            (IDescriptor JUndefined (JStr " save ")) true [])
     = Normal None.
Proof. split; reflexivity. Qed.

(** In exact mode a text never resolves to an element that merely contains
    it: the result is the selector's element or an exact match. *)
Theorem exact_mode_returns_no_partial_match :
  forall (engine : SelectorEngine) (document : Document) (selector : JsVal)
         (t : string) (element : Element) (log : list Event),
    fst (findElementFromInteraction engine document (IDescriptor selector (JStr t))
           true log) = Normal (Some element) ->
    selectorResult engine document selector = Some element
    \/ (In element document /\ matchesText true t element).
Proof.
  intros engine document selector t element log H.
  rewrite findElement_by_table in H. injection H as Ht.
  unfold resolutionTable in Ht. cbv zeta in Ht.
  destruct (String.eqb t EmptyString); [now left|].
  destruct (exactMatches engine document t) as [|first rest] eqn:Hm; [now left|].
  injection Ht as ->. right.
  unfold exactMatches, scopeElements in Hm.
  destruct (engine interactiveScope) as [m|]; [|discriminate].
  assert (Hin : In element (filter (textMatches true (trim t))
                              (filter (m document) document))).
  { rewrite Hm. now left. }
  apply filter_In in Hin. destruct Hin as [Hin Hmatch].
  apply filter_In in Hin. destruct Hin as [Hin _].
  split; [assumption | now apply textMatches_iff].
Qed.

Lemma exact_mode_returns_no_partial_match_witness :
  selectorResult testEngine formPage (JStr "#banner") = Some hiddenSubmit
  \/ (In hiddenSubmit formPage /\ matchesText true "Submit" hiddenSubmit).
Proof.
  apply (exact_mode_returns_no_partial_match testEngine formPage (JStr "#banner")
           "Submit" hiddenSubmit []).
  reflexivity.
Defined.

(** ** A text that is not a string *)

(** A truthy [text] that is not a string (a number, an object) has no
    [trim]: whenever strategy 2 is entered the call ends in null, even if
    the selector had resolved an element.  So in exact mode the result is
    always null, and otherwise it is the selector's result. *)
Theorem non_string_text_discards_result :
  forall (engine : SelectorEngine) (document : Document) (selector text : JsVal)
         (requireExactMatch : bool) (log : list Event),
    truthy text = true ->
    (forall s, text <> JStr s) ->
    fst (findElementFromInteraction engine document (IDescriptor selector text)
           requireExactMatch log)
    = Normal (if requireExactMatch then None
              else selectorResult engine document selector).
Proof.
  intros engine document selector text req log Htruthy Hns.
  assert (Htrim : Runs (callTrim text) (Thrown TypeError) []).
  { destruct text; try (intro l; reflexivity). exfalso. now apply (Hns s). }
  set (bySel := selectorResult engine document selector).
  assert (H : exists r evs,
             Runs (textStrategies engine document (IDescriptor selector text) req bySel)
                  r evs
             /\ match r with Normal found => found | Thrown _ => None end
                = (if req then None else bySel)).
  { unfold textStrategies, byText. cbn [textOf]. rewrite Htruthy, andb_true_r.
    destruct (negb (isSome bySel) || req) eqn:Hgate.
    - exists (Thrown TypeError), []. split.
      + apply Runs_bind_thrown. apply Runs_bind_thrown. exact Htrim.
      + destruct req; [reflexivity|]. rewrite orb_false_r in Hgate.
        destruct bySel; [discriminate | reflexivity].
    - apply orb_false_iff in Hgate. destruct Hgate as [Hsome ->].
      destruct bySel as [element|]; [|discriminate].
      exists (Normal (Some element)), ([] ++ [])%list. split; [|reflexivity].
      eapply Runs_bind; [apply Runs_ret|].
      unfold byBroaderText. cbn [isSome negb andb]. apply Runs_ret. }
  destruct H as (r & evs & Hr & Hres).
  destruct (Runs_findElement engine document selector text req r evs Hr) as (evs' & H').
  now rewrite H', Hres.
Qed.

(** The banner is found by its id, but a numeric text makes the default
    (exact) call return null. *)
Lemma non_string_text_discards_result_witness :
  selectorResult testEngine formPage (JStr "#banner") = Some banner
  /\ fst (findElementFromInteraction testEngine formPage
            (IDescriptor (JStr "#banner") (JNum 42)) true []) = Normal None
  /\ fst (findElementFromInteraction testEngine formPage
            (IDescriptor (JStr "#banner") (JNum 42)) false []) = Normal (Some banner).
Proof.
  split; [reflexivity|]. split.
  - apply (non_string_text_discards_result testEngine formPage (JStr "#banner")
             (JNum 42) true []); [reflexivity | discriminate].
  - apply (non_string_text_discards_result testEngine formPage (JStr "#banner")
             (JNum 42) false []); [reflexivity | discriminate].
Defined.

(* ================================================================== *)
(** * Part XIII.  The guidance container                               *)
(* ================================================================== *)

Lemma release_own : forall x t, release (Some x) [(x, t)] = [].
Proof. intros x t. cbn. now rewrite Nat.eqb_refl. Qed.

Lemma show_first :
  forall call,
    Guided call call "" (showGuidanceElements call emptyGuidancePage).
Proof.
  intro call. constructor. exists 1%nat, 0%nat. cbn. repeat split. lia.
Qed.

Lemma show_next :
  forall first last display call p,
    Guided first last display p ->
    Guided first call display (showGuidanceElements call p).
Proof.
  intros first last display call p [(observer & handler & Hg & Ho & Hl & Hf)].
  constructor. unfold showGuidanceElements. rewrite Hg, Ho, Hl.
  cbn [containerObserver containerDisplay containerScrollHandler containerChildren].
  rewrite release_own.
  exists (freshObject p), handler. repeat split. cbn. lia.
Qed.

Lemma last_cons :
  forall (A : Type) (l : list A) (a d : A), List.last (a :: l) d = List.last l a.
Proof.
  intros A. induction l as [|b rest IH]; intros a d; [reflexivity|].
  change (List.last (a :: b :: rest) d) with (List.last (b :: rest) d).
  now rewrite !IH.
Qed.

Lemma showAll_guided :
  forall rest first last display p,
    Guided first last display p ->
    Guided first (List.last rest last) display (showAll rest p).
Proof.
  induction rest as [|call rest IH]; intros first last display p H; [exact H|].
  cbn [showAll fold_left].
  rewrite last_cons.
  apply (IH first call display). now apply show_next with (last := last).
Qed.

(** However many times the guidance is shown, the page holds one container
    with one connected observer and one scroll handler.  The observer and
    the popup text follow the latest call; the scroll handler, the highlight
    and the cursor stay those of the call that created the container, so a
    scroll or resize repositions the container on the first target. *)
Theorem guidance_is_reused :
  forall (first : GuidanceCall) (rest : list GuidanceCall),
    let latest := List.last rest first in
    let p := showAll (first :: rest) emptyGuidancePage in
    exists observer handler,
      guidance p
      = Some (mkGuidanceContainer "" (Some observer) (Some handler)
                [highlightNode first; cursorNode first] (Some (popupText latest)))
      /\ observing p = [(observer, target latest)]
      /\ listening p = [(handler, target first)].
Proof.
  intros first rest latest p. subst latest p. cbn [showAll fold_left].
  destruct (showAll_guided rest first first "" _ (show_first first))
    as [(observer & handler & Hg & Ho & Hl & _)].
  exists observer, handler. auto.
Qed.

(** The three steps of the tour: the observer watches the third target, the
    scroll handler still positions on the first. *)
Example tour_keeps_first_scroll_target :
  map snd (observing (showAll tourSteps emptyGuidancePage)) = [13%nat]
  /\ map snd (listening (showAll tourSteps emptyGuidancePage)) = [11%nat].
Proof. split; reflexivity. Qed.

(** After any number of calls, [cleanupAllUI] leaves no container, no
    connected observer and no window listener. *)
Theorem cleanup_releases_guidance :
  forall calls : list GuidanceCall,
    let p := cleanupGuidance (showAll calls emptyGuidancePage) in
    guidance p = None /\ observing p = [] /\ listening p = [].
Proof.
  intros [|first rest]; [cbn; auto|].
  cbn [showAll fold_left].
  destruct (showAll_guided rest first first "" _ (show_first first))
    as [(observer & handler & Hg & Ho & Hl & _)].
  unfold cleanupGuidance. fold (showAll rest (showGuidanceElements first emptyGuidancePage)).
  rewrite Hg, Ho, Hl. cbn [guidance observing listening containerObserver
                            containerScrollHandler].
  now rewrite !release_own.
Qed.

(** Hiding is not undone by showing: once [hideGuidanceElements] has run on
    a page with a container, the container stays at [display: none] through
    every later [showGuidanceElements]. *)
Theorem hidden_guidance_stays_hidden :
  forall (before after : list GuidanceCall) (first : GuidanceCall),
    exists container,
      guidance (showAll after
                  (hideGuidanceElements (showAll (first :: before) emptyGuidancePage)))
      = Some container
      /\ containerDisplay container = "none".
Proof.
  intros before after first. cbn [showAll fold_left].
  destruct (showAll_guided before first first "" _ (show_first first))
    as [(observer & handler & Hg & Ho & Hl & Hf)].
  fold (showAll before (showGuidanceElements first emptyGuidancePage)).
  set (shown := showAll before (showGuidanceElements first emptyGuidancePage)) in *.
  assert (Hh : Guided first (List.last before first) "none" (hideGuidanceElements shown)).
  { constructor. unfold hideGuidanceElements. rewrite Hg.
    exists observer, handler. cbn. auto. }
  destruct (showAll_guided after first _ "none" _ Hh)
    as [(observer' & handler' & Hg' & _)].
  eexists. split; [exact Hg' | reflexivity].
Qed.

(* ================================================================== *)
(** * Part XIV.  Scrolling a target into view                          *)
(* ================================================================== *)

(** When the browser honours the corrective [scrollTo], the target ends up
    vertically centred in the window; a target no taller than the window is
    then no longer out of view by the test that triggered the correction. *)
Theorem corrective_scroll_centres_target :
  forall (v : Viewport) (r : DOMRect) (scrollY : Q),
    let after := rectAtScroll r scrollY (middle v r scrollY) in
    Rect.top after + Rect.height after / 2 == innerHeight v / 2
    /\ (0 <= Rect.height r -> Rect.height r <= innerHeight v ->
        stillOutOfView v after = false).
Proof.
  intros v r scrollY after. subst after. unfold rectAtScroll, middle.
  cbn [Rect.top Rect.left Rect.width Rect.height].
  split; [field|].
  intros H0 H1. unfold stillOutOfView, rectBottom.
  cbn [Rect.top Rect.left Rect.width Rect.height].
  assert (Ha : innerHeight v / 2 == (1 # 2) * innerHeight v) by field.
  assert (Hb : Rect.height r / 2 == (1 # 2) * Rect.height r) by field.
  set (a := innerHeight v / 2) in *. set (b := Rect.height r / 2) in *.
  apply orb_false_iff. split; apply negb_false_iff; apply Qle_bool_iff.
  - lra.
  - apply Q.max_lub; lra.
Qed.

Lemma corrective_scroll_centres_target_witness :
  stillOutOfView laptopViewport (Rect.mk 1500 40 300 200) = true
  /\ stillOutOfView laptopViewport
       (rectAtScroll (Rect.mk 1500 40 300 200) 100
          (middle laptopViewport (Rect.mk 1500 40 300 200) 100)) = false.
Proof.
  split; [reflexivity|].
  apply (proj2 (corrective_scroll_centres_target laptopViewport
                  (Rect.mk 1500 40 300 200) 100)); cbn; lra.
Defined.

(** An element in view fits in the window. *)
Lemma in_view_fits :
  forall v r,
    0 <= Rect.width r -> 0 <= Rect.height r ->
    isElementInView v r = true ->
    Rect.width r <= orNumber (innerWidth v) (clientWidth v)
    /\ Rect.height r <= orNumber (innerHeight v) (clientHeight v).
Proof.
  intros v r Hw Hh H. unfold isElementInView in H.
  repeat (apply andb_true_iff in H; destruct H as [H ?]).
  repeat match goal with
         | H : Qle_bool _ _ = true |- _ => apply Qle_bool_iff in H
         end.
  unfold rectBottom, rectRight in *.
  pose proof (Q.le_max_r (Rect.top r) (Rect.top r + Rect.height r)).
  pose proof (Q.le_max_r (Rect.left r) (Rect.left r + Rect.width r)).
  split; lra.
Qed.

(** ** Waiting for the smooth scroll *)

Lemma scrolls_snoc :
  forall events e,
    scrolls (events ++ [e])
    = (scrolls events + match e with Scrolled => 1 | TimerElapsed => 0 end)%nat.
Proof.
  intros events e. unfold scrolls. rewrite filter_app, length_app.
  destruct e; reflexivity.
Qed.

Lemma scrollsBeforeTimer_none :
  forall events, scrollsBeforeTimer events = None -> scrolls events = List.length events.
Proof.
  induction events as [|[|] rest IH]; cbn; intro H; try reflexivity; try discriminate.
  destruct (scrollsBeforeTimer rest); [discriminate|].
  unfold scrolls in *. cbn. now rewrite IH.
Qed.

Lemma scrollsBeforeTimer_snoc :
  forall events e,
    scrollsBeforeTimer (events ++ [e])
    = match scrollsBeforeTimer events with
      | Some n => Some n
      | None => match e with
                | Scrolled => None
                | TimerElapsed => Some (scrolls events)
                end
      end.
Proof.
  induction events as [|[|] rest IH]; intro e; cbn.
  - destruct e; reflexivity.
  - rewrite IH. destruct (scrollsBeforeTimer rest) as [n|] eqn:E; [reflexivity|].
    destruct e; [reflexivity|]. cbn. now unfold scrolls.
  - reflexivity.
Qed.

Lemma scrollsBeforeTimer_bound :
  forall events n, scrollsBeforeTimer events = Some n -> (n <= scrolls events)%nat.
Proof.
  induction events as [|[|] rest IH]; cbn; intros n H; try discriminate.
  - destruct (scrollsBeforeTimer rest) as [m|]; [|discriminate].
    inversion H; subst. specialize (IH m eq_refl). unfold scrolls in *. cbn. lia.
  - inversion H. lia.
Qed.

Lemma scrollsBeforeTimer_scrolled :
  forall events,
    scrollsBeforeTimer (events ++ [Scrolled]) = scrollsBeforeTimer events.
Proof.
  intro events. rewrite scrollsBeforeTimer_snoc.
  now destruct (scrollsBeforeTimer events).
Qed.

Ltac settle_wait :=
  repeat split; intros;
  repeat match goal with
         | H : _ /\ _ |- _ => destruct H
         | H : exists _, _ |- _ => destruct H
         | H : _ \/ _ |- _ => destruct H
         | H : Some _ = Some _ |- _ => injection H as H; subst
         end;
  try discriminate; try congruence; try lia; eauto.

Lemma waiting_step :
  forall events w e,
    Waiting events w -> Waiting (events ++ [e]) (onScrollEvent w e).
Proof.
  intros events [count pending listener res rech] e [Hc Hl Ht Hr Hres].
  cbn [scrollCount timerPending scrollListener resolved rechecked] in *.
  pose proof (scrolls_snoc events e) as Hs.
  pose proof (scrollsBeforeTimer_snoc events e) as Hb.
  destruct e; cbn [onScrollEvent scrollListener timerPending scrollCount
                   resolved rechecked].
  - (* a scroll event *)
    rewrite scrollsBeforeTimer_scrolled in Hb. clear Hb.
    destruct listener.
    + specialize (Hc eq_refl). subst count.
      assert (Hlt : (scrolls events < 6)%nat) by now apply Hl.
      destruct (Nat.ltb_spec 5 (S (scrolls events))) as [H6|H6];
        constructor;
        cbn [scrollCount timerPending scrollListener resolved rechecked];
        rewrite ?scrollsBeforeTimer_scrolled, ?Hs.
      * discriminate.
      * solve [settle_wait].
      * solve [settle_wait].
      * exact Hr.
      * solve [settle_wait].
      * intros _. lia.
      * solve [settle_wait].
      * rewrite Ht. solve [settle_wait].
      * exact Hr.
      * rewrite Hres. solve [settle_wait].
    + assert (Hge : (6 <= scrolls events)%nat).
      { destruct (Nat.lt_ge_cases (scrolls events) 6) as [Hlt|]; [|assumption].
        apply Hl in Hlt. discriminate. }
      constructor;
        cbn [scrollCount timerPending scrollListener resolved rechecked];
        rewrite ?scrollsBeforeTimer_scrolled, ?Hs.
      * discriminate.
      * solve [settle_wait].
      * rewrite Ht. solve [settle_wait].
      * exact Hr.
      * rewrite Hres. solve [settle_wait].
  - (* the timer *)
    rewrite Nat.add_0_r in Hs.
    destruct pending.
    + destruct Ht as [Ht _]. destruct (Ht eq_refl) as [Hlt Hnone].
      rewrite Hnone in Hb.
      constructor;
        cbn [scrollCount timerPending scrollListener resolved rechecked];
        rewrite ?Hs, ?Hb.
      * exact Hc.
      * exact Hl.
      * solve [settle_wait].
      * solve [settle_wait].
      * split; [intros _; right; discriminate | reflexivity].
    + assert (Hno : ~ ((scrolls events < 6)%nat /\ scrollsBeforeTimer events = None)).
      { intro A. apply Ht in A. discriminate. }
      constructor;
        cbn [scrollCount timerPending scrollListener resolved rechecked];
        rewrite ?Hs, ?Hb.
      * exact Hc.
      * exact Hl.
      * destruct (scrollsBeforeTimer events); settle_wait.
      * rewrite Hr. destruct (scrollsBeforeTimer events) as [n|] eqn:E; [reflexivity|].
        split; [settle_wait|]. intros (n & A & B). injection A as <-.
        exfalso. apply Hno. auto.
      * rewrite Hres. destruct (scrollsBeforeTimer events) as [n|] eqn:E; [reflexivity|].
        split; [settle_wait|]. intros [A|_]; [now left|].
        destruct (Nat.lt_ge_cases (scrolls events) 6) as [Hlt|]; [|now left].
        exfalso. apply Hno. auto.
Qed.

Lemma waiting_start : Waiting [] scrollRequested.
Proof.
  constructor; cbn; try tauto.
  - split; [intros _; unfold scrolls; cbn; lia | reflexivity].
  - split; [intros _; split; [unfold scrolls; cbn; lia | reflexivity] | reflexivity].
  - split; [discriminate | intros (n & A & _); discriminate].
  - split; [discriminate | intros [A|A]; [unfold scrolls in A; cbn in A; lia | congruence]].
Qed.

(** After the smooth scroll is requested, the promise settles at the sixth
    scroll event or when the timer elapses, whichever comes first.  The
    position is checked again (and corrected) only if the timer elapsed
    before the sixth scroll event.  The scroll listener stays registered
    until six scroll events have arrived, also after the timer has settled
    the promise. *)
Theorem scroll_wait_outcome :
  forall events : list ScrollEvent,
    let w := fold_left onScrollEvent events scrollRequested in
    (resolved w = true <->
     (6 <= scrolls events)%nat \/ scrollsBeforeTimer events <> None)
    /\ (rechecked w = true <->
        exists n, scrollsBeforeTimer events = Some n /\ (n < 6)%nat)
    /\ (scrollListener w = true <-> (scrolls events < 6)%nat).
Proof.
  intro events.
  assert (H : Waiting events (fold_left onScrollEvent events scrollRequested)).
  { induction events as [|e rest IH] using rev_ind; [exact waiting_start|].
    rewrite fold_left_app. cbn [fold_left]. now apply waiting_step. }
  destruct H as [_ Hl _ Hr Hres]. cbv zeta. auto.
Qed.

(* ================================================================== *)
(** * Part XV.  Adjusting colours                                      *)
(* ================================================================== *)

Lemma channel_in_values :
  forall n, (0 <= n <= 255)%Z -> In n channelValues.
Proof.
  intros n Hn. unfold channelValues.
  apply in_map_iff. exists (Z.to_nat n). split; [lia|].
  apply in_seq. lia.
Qed.

Lemma clampChannel_range : forall x, (0 <= clampChannel x <= 255)%Z.
Proof. intro x. unfold clampChannel. lia. Qed.

Lemma checked_on_channels :
  forall check : Z -> bool,
    forallb check channelValues = true ->
    forall n, (0 <= n <= 255)%Z -> check n = true.
Proof.
  intros check H n Hn. rewrite forallb_forall in H.
  apply H. now apply channel_in_values.
Qed.

(** Two hexadecimal digits are read back as the number they were printed
    from. *)
Lemma parseInt16_toHexPadded :
  forall n, (0 <= n <= 255)%Z -> parseInt16 (toHexPadded n) = Some n.
Proof.
  intros n Hn.
  assert (H : hexRoundTrip n = true)
    by (apply checked_on_channels; [vm_compute; reflexivity | assumption]).
  unfold hexRoundTrip in H.
  destruct (parseInt16 (toHexPadded n)) as [v|]; [|discriminate].
  apply Z.eqb_eq in H. now subst.
Qed.

Lemma toHexPadded_is_plain :
  forall n, (0 <= n <= 255)%Z ->
    forall rest,
      removeLeadingHash (toHexPadded n ++ rest) = toHexPadded n ++ rest
      /\ forall f,
           replacePairs f (toHexPadded n ++ rest)
           = f (toHexPadded n) ++ replacePairs f rest.
Proof.
  intros n Hn rest.
  assert (H : hexIsPlain n = true)
    by (apply checked_on_channels; [vm_compute; reflexivity | assumption]).
  unfold hexIsPlain, isPlainChar in H.
  apply andb_true_iff in H. destruct H as [Hhi Hlo].
  apply andb_true_iff in Hhi. destruct Hhi as [Ha Hb].
  apply andb_true_iff in Hlo. destruct Hlo as [Hc _].
  apply negb_true_iff in Ha, Hb, Hc.
  unfold toHexPadded. cbn [append]. split.
  - cbn [removeLeadingHash].
    destruct (hexDigit (n / 16)) as [[] [] [] [] [] [] [] []]; try reflexivity.
    discriminate.
  - intro f. cbn [replacePairs]. now rewrite Ha, Hc.
Qed.

Lemma adjustPair_toHexPadded :
  forall amount n, (0 <= n <= 255)%Z ->
    adjustPair amount (toHexPadded n) = toHexPadded (clampChannel (n + amount)).
Proof.
  intros amount n Hn. unfold adjustPair. now rewrite parseInt16_toHexPadded.
Qed.

Lemma adjustColor_plain :
  forall r g b amount,
    (0 <= r <= 255)%Z -> (0 <= g <= 255)%Z -> (0 <= b <= 255)%Z ->
    adjustColor (hexColor r g b) amount
    = hexColor (clampChannel (r + amount)) (clampChannel (g + amount))
               (clampChannel (b + amount)).
Proof.
  intros r g b amount Hr Hg Hb. unfold adjustColor, hexColor.
  destruct (toHexPadded_is_plain r Hr (toHexPadded g ++ toHexPadded b)) as [H0 H1].
  rewrite H0, H1.
  destruct (toHexPadded_is_plain g Hg (toHexPadded b)) as [_ H2]. rewrite H2.
  replace (toHexPadded b) with (toHexPadded b ++ "") at 1
    by (unfold toHexPadded; reflexivity).
  destruct (toHexPadded_is_plain b Hb "") as [_ H3]. rewrite H3.
  rewrite !adjustPair_toHexPadded by assumption.
  unfold toHexPadded. reflexivity.
Qed.

(** On a colour written as six hexadecimal digits, with or without the
    leading hash sign, the module-level [adjustColor] adds the amount to
    each channel, keeps each channel within 0..255, and returns six
    lowercase hexadecimal digits without a hash sign. *)
Theorem adjustColor_shifts_each_channel :
  forall (r g b amount : Z),
    (0 <= r <= 255)%Z -> (0 <= g <= 255)%Z -> (0 <= b <= 255)%Z ->
    adjustColor ("#" ++ hexColor r g b) amount
    = hexColor (clampChannel (r + amount)) (clampChannel (g + amount))
               (clampChannel (b + amount))
    /\ adjustColor (hexColor r g b) amount
       = adjustColor ("#" ++ hexColor r g b) amount.
Proof.
  intros r g b amount Hr Hg Hb.
  assert (H : adjustColor ("#" ++ hexColor r g b) amount
              = adjustColor (hexColor r g b) amount).
  { unfold adjustColor at 1. cbn [append removeLeadingHash].
    unfold adjustColor, hexColor.
    destruct (toHexPadded_is_plain r Hr (toHexPadded g ++ toHexPadded b)) as [H0 _].
    now rewrite H0. }
  split; [|now rewrite H].
  rewrite H. now apply adjustColor_plain.
Qed.

Lemma adjustColor_shifts_each_channel_witness :
  adjustColor ("#" ++ hexColor 255 107 0) (-20) = "eb5700"
  /\ adjustColor (hexColor 255 107 0) (-20) = "eb5700".
Proof.
  destruct (adjustColor_shifts_each_channel 255 107 0 (-20)) as [H1 H2]; try lia.
  split; [rewrite H1 | rewrite H2, H1]; reflexivity.
Defined.

(** Two adjustments in the same direction add up: darkening twice, or
    lightening twice, gives what one adjustment by the sum gives. *)
Theorem adjustColor_accumulates :
  forall (r g b a1 a2 : Z),
    (0 <= r <= 255)%Z -> (0 <= g <= 255)%Z -> (0 <= b <= 255)%Z ->
    (0 <= a1 /\ 0 <= a2)%Z \/ (a1 <= 0 /\ a2 <= 0)%Z ->
    adjustColor (adjustColor (hexColor r g b) a1) a2
    = adjustColor (hexColor r g b) (a1 + a2).
Proof.
  intros r g b a1 a2 Hr Hg Hb Hsign.
  rewrite (adjustColor_plain r g b a1) by assumption.
  rewrite adjustColor_plain by apply clampChannel_range.
  rewrite (adjustColor_plain r g b (a1 + a2)) by assumption.
  assert (Hc : forall x, (0 <= x <= 255)%Z ->
                 clampChannel (clampChannel (x + a1) + a2) = clampChannel (x + (a1 + a2))).
  { intros x Hx. unfold clampChannel. lia. }
  now rewrite !Hc by assumption.
Qed.

Lemma adjustColor_accumulates_witness :
  adjustColor (adjustColor (hexColor 250 107 0) 10) 30
  = adjustColor (hexColor 250 107 0) (10 + 30).
Proof.
  apply adjustColor_accumulates; lia.
Defined.

(** Opposite adjustments do not cancel once a channel has been clipped. *)
Example adjustColor_clipping_loses_colour :
  adjustColor (adjustColor (hexColor 250 107 0) 10) (-10) = "f56b00"
  /\ hexColor 250 107 0 = "fa6b00".
Proof. split; reflexivity. Qed.

(** ** The method of the UI class *)

Lemma digitRuns_after_digits :
  forall s cur acc ch rest,
    readDigits s cur = Some acc ->
    digitValue ch = None ->
    digitRuns (s ++ String ch rest) cur
    = match acc with
      | Some n => n :: digitRuns rest None
      | None => digitRuns rest None
      end.
Proof.
  induction s as [|c s IH]; intros cur acc ch rest Hread Hch.
  - cbn in Hread. injection Hread as <-. cbn [append digitRuns]. now rewrite Hch.
  - cbn [readDigits] in Hread. cbn [append digitRuns].
    destruct (digitValue c) as [d|]; [|discriminate].
    now apply IH.
Qed.

Lemma digitRuns_decimal :
  forall n, (0 <= n <= 255)%Z ->
    forall ch rest,
      digitValue ch = None ->
      digitRuns (decimal n ++ String ch rest) None = n :: digitRuns rest None.
Proof.
  intros n Hn ch rest Hch.
  assert (H : decimalRoundTrip n = true)
    by (apply checked_on_channels; [vm_compute; reflexivity | assumption]).
  unfold decimalRoundTrip in H.
  destruct (readDigits (decimal n) None) as [[v|]|] eqn:E; try discriminate.
  apply Z.eqb_eq in H. subst v.
  now rewrite (digitRuns_after_digits _ _ _ _ _ E Hch).
Qed.

Lemma digitRuns_rgbString :
  forall r g b,
    (0 <= r <= 255)%Z -> (0 <= g <= 255)%Z -> (0 <= b <= 255)%Z ->
    digitRuns (rgbString r g b) None = [r; g; b].
Proof.
  intros r g b Hr Hg Hb. unfold rgbString.
  change (digitRuns ("rgb(" ++ decimal r ++ ", " ++ decimal g ++ ", " ++ decimal b ++ ")")
            None)
    with (digitRuns (decimal r ++ String "," (String " " (decimal g ++ ", " ++ decimal b ++ ")")))
            None).
  rewrite (digitRuns_decimal r Hr) by reflexivity.
  change (digitRuns (String " " (decimal g ++ ", " ++ decimal b ++ ")")) None)
    with (digitRuns (decimal g ++ String "," (String " " (decimal b ++ ")"))) None).
  rewrite (digitRuns_decimal g Hg) by reflexivity.
  change (digitRuns (String " " (decimal b ++ ")")) None)
    with (digitRuns (decimal b ++ String ")" EmptyString) None).
  rewrite (digitRuns_decimal b Hb) by reflexivity.
  reflexivity.
Qed.

Lemma rgbString_shape :
  forall r g b,
    String.eqb (rgbString r g b) EmptyString = false
    /\ String.prefix "rgb" (rgbString r g b) = true.
Proof.
  intros r g b. split.
  - reflexivity.
  - apply prefix_true_iff. eexists. unfold rgbString. reflexivity.
Qed.

Lemma CursorFlowUI_adjustColor_rgb :
  forall (serialize : ColorSerializer) (color : string) (r g b amount : Z),
    (0 <= r <= 255)%Z -> (0 <= g <= 255)%Z -> (0 <= b <= 255)%Z ->
    serialize color = rgbString r g b ->
    CursorFlowUI_adjustColor serialize color amount
    = "#" ++ hexColor (clampChannel (r + amount)) (clampChannel (g + amount))
                      (clampChannel (b + amount)).
Proof.
  intros serialize color r g b amount Hr Hg Hb Hs.
  unfold CursorFlowUI_adjustColor. rewrite Hs.
  destruct (rgbString_shape r g b) as [H1 H2]. rewrite H1, H2.
  rewrite digitRuns_rgbString by assumption.
  reflexivity.
Qed.

(** For a colour that the browser serialises as rgb(r, g, b), the method
    returns a hash sign and six lowercase hexadecimal digits: each channel
    plus the amount, kept within 0..255. *)
Theorem CursorFlowUI_adjustColor_shifts_each_channel :
  forall (serialize : ColorSerializer) (color : string) (r g b amount : Z),
    (0 <= r <= 255)%Z -> (0 <= g <= 255)%Z -> (0 <= b <= 255)%Z ->
    serialize color = rgbString r g b ->
    CursorFlowUI_adjustColor serialize color amount
    = "#" ++ hexColor (clampChannel (r + amount)) (clampChannel (g + amount))
                      (clampChannel (b + amount)).
Proof. exact CursorFlowUI_adjustColor_rgb. Qed.

Lemma CursorFlowUI_adjustColor_shifts_each_channel_witness :
  CursorFlowUI_adjustColor testSerializer "#ff6b00" (-20) = "#eb5700"
  /\ CursorFlowUI_adjustColor testSerializer "orange" 100 = "#ffff64".
Proof.
  split.
  - rewrite (CursorFlowUI_adjustColor_shifts_each_channel testSerializer "#ff6b00" 255 107 0 (-20));
      try lia; reflexivity.
  - rewrite (CursorFlowUI_adjustColor_shifts_each_channel testSerializer "orange" 255 165 0 100);
      try lia; reflexivity.
Defined.

(** The same colour goes through both functions to the same six digits;
    only the method of the class puts the hash sign back. *)
Theorem adjustColor_functions_agree :
  forall (serialize : ColorSerializer) (r g b amount : Z),
    (0 <= r <= 255)%Z -> (0 <= g <= 255)%Z -> (0 <= b <= 255)%Z ->
    serialize ("#" ++ hexColor r g b) = rgbString r g b ->
    CursorFlowUI_adjustColor serialize ("#" ++ hexColor r g b) amount
    = "#" ++ adjustColor ("#" ++ hexColor r g b) amount.
Proof.
  intros serialize r g b amount Hr Hg Hb Hs.
  assert (H : adjustColor ("#" ++ hexColor r g b) amount
              = adjustColor (hexColor r g b) amount).
  { unfold adjustColor at 1. cbn [append removeLeadingHash].
    unfold adjustColor, hexColor.
    destruct (toHexPadded_is_plain r Hr (toHexPadded g ++ toHexPadded b)) as [H0 _].
    now rewrite H0. }
  rewrite H, adjustColor_plain by assumption.
  now apply CursorFlowUI_adjustColor_rgb.
Qed.

Lemma adjustColor_functions_agree_witness :
  CursorFlowUI_adjustColor testSerializer ("#" ++ hexColor 255 107 0) 16
  = "#" ++ adjustColor ("#" ++ hexColor 255 107 0) 16.
Proof.
  apply adjustColor_functions_agree; try lia. reflexivity.
Defined.

(* ================================================================== *)
(** * Part XVI.  Wrappers on the page                                  *)
(* ================================================================== *)

(** ** One wrapper of each class *)

Lemma attachedOfClass_app :
  forall k l1 l2,
    attachedOfClass k (l1 ++ l2) = (attachedOfClass k l1 ++ attachedOfClass k l2)%list.
Proof. intros. apply filter_app. Qed.

Lemma removeExistingWrapper_same :
  forall k l,
    (List.length (attachedOfClass k l) <= 1)%nat ->
    attachedOfClass k (removeExistingWrapper k l) = [].
Proof.
  intros k l. induction l as [|n rest IH]; intro H; [reflexivity|].
  cbn [removeExistingWrapper]. unfold attachedOfClass in *. cbn [filter] in H.
  destruct (attachedToBody n && sameClass (className n) k) eqn:E.
  - cbn [filter detach attachedToBody className andb].
    cbn [List.length] in H.
    destruct (filter _ rest) eqn:F; [reflexivity | cbn in H; lia].
  - cbn [filter]. rewrite E. now apply IH.
Qed.

Lemma removeExistingWrapper_other :
  forall k k' l,
    sameClass k k' = false ->
    attachedOfClass k' (removeExistingWrapper k l) = attachedOfClass k' l.
Proof.
  intros k k' l Hk. induction l as [|n rest IH]; [reflexivity|].
  cbn [removeExistingWrapper]. unfold attachedOfClass in *.
  destruct (attachedToBody n && sameClass (className n) k) eqn:E.
  - cbn [filter detach attachedToBody className andb].
    apply andb_true_iff in E. destruct E as [-> E].
    destruct (className n), k, k'; try discriminate; reflexivity.
  - cbn [filter]. now rewrite IH.
Qed.

Lemma updateNode_count :
  forall k f i l,
    (forall n, attachedToBody (f n) = attachedToBody n /\ className (f n) = className n) ->
    List.length (attachedOfClass k (updateNode i f l))
    = List.length (attachedOfClass k l).
Proof.
  intros k f i l Hf. revert i. induction l as [|n rest IH]; intros [|i]; try reflexivity.
  - cbn [updateNode]. unfold attachedOfClass. cbn [filter].
    destruct (Hf n) as [-> ->].
    now destruct (attachedToBody n && sameClass (className n) k).
  - cbn [updateNode]. unfold attachedOfClass in *. cbn [filter].
    specialize (IH i).
    destruct (attachedToBody n && sameClass (className n) k); cbn [List.length];
      now rewrite IH.
Qed.

Lemma pageStep_count :
  forall k p step,
    (List.length (attachedOfClass k (nodes p)) <= 1)%nat ->
    List.length (attachedOfClass k (nodes (pageStep p step)))
    = if requests k step then 1%nat else List.length (attachedOfClass k (nodes p)).
Proof.
  intros k p step H. destruct step as [| |c i first]; cbn [pageStep].
  - cbn [positionHighlightOnElement fst nodes]. rewrite attachedOfClass_app, length_app.
    destruct k; cbn [requests].
    + rewrite removeExistingWrapper_other by reflexivity. cbn. lia.
    + rewrite removeExistingWrapper_same by assumption. reflexivity.
  - cbn [moveCursorToElement fst nodes]. rewrite attachedOfClass_app, length_app.
    destruct k; cbn [requests].
    + rewrite removeExistingWrapper_same by assumption. reflexivity.
    + rewrite removeExistingWrapper_other by reflexivity. cbn. lia.
  - cbn [monitoringStarts nodes]. destruct k; cbn [requests];
      apply updateNode_count; intro n; split; reflexivity.
Qed.

(** Whatever sequence of highlight and cursor requests the page has served,
    the document holds at most one highlight wrapper and at most one cursor
    wrapper: exactly one of a class once a wrapper of that class was
    requested. *)
Theorem one_wrapper_per_class :
  forall (steps : list PageStep) (k : WrapperClass),
    List.length (attachedOfClass k (nodes (fold_left pageStep steps emptyPage)))
    = if existsb (requests k) steps then 1%nat else 0%nat.
Proof.
  intros steps k.
  induction steps as [|step rest IH] using rev_ind; [reflexivity|].
  rewrite fold_left_app, existsb_app. cbn [fold_left existsb].
  rewrite pageStep_count.
  - rewrite IH, orb_false_r.
    destruct (requests k step); [now rewrite orb_true_r | now rewrite orb_false_r].
  - rewrite IH. destruct (existsb (requests k) rest); lia.
Qed.

(** ** What [cleanupAllUI] releases *)

Lemma removeHandle_In :
  forall o h l,
    In h (removeHandle o l) <-> In h l /\ o <> Some h.
Proof.
  intros [x|] h l; cbn.
  - rewrite filter_In, negb_true_iff, Pos.eqb_neq. split.
    + intros [A B]. split; [assumption | congruence].
    + intros [A B]. split; [assumption | congruence].
  - split; [intro A; split; [assumption | discriminate] | tauto].
Qed.

Lemma cleanupWrappers_intervals :
  forall l p h,
    In h (activeIntervals (cleanupWrappers l p))
    <-> In h (activeIntervals p) /\ ~ heldByAttached h l.
Proof.
  induction l as [|n rest IH]; intros p h; cbn [cleanupWrappers].
  - split; [intro A; split; [assumption | intros (n & [] & _)] | tauto].
  - destruct (attachedToBody n) eqn:Ha.
    + rewrite IH. cbn [activeIntervals]. rewrite removeHandle_In. split.
      * intros [[A B] C]. split; [assumption|].
        intros (m & [<-|Hm] & Hatt & Hh); [contradiction|].
        apply C. exists m. auto.
      * intros [A C]. split; [split; [assumption|]|].
        -- intro B. apply C. exists n. cbn. auto.
        -- intros (m & Hm & Hatt & Hh). apply C. exists m. cbn. auto.
    + rewrite IH. split; intros [A C]; (split; [assumption|]).
      * intros (m & [<-|Hm] & Hatt & Hh); [congruence|].
        apply C. exists m. auto.
      * intros (m & Hm & Hatt & Hh). apply C. exists m. cbn. auto.
Qed.

(** [cleanupAllUI] clears exactly the intervals held by wrappers that are
    still in the document: the interval of a wrapper that an earlier
    retargeting removed from the document stays active. *)
Theorem cleanup_clears_attached_intervals_only :
  forall (p : Page) (h : positive),
    In h (activeIntervals (cleanupAllUI_wrappers p))
    <-> In h (activeIntervals p) /\ ~ heldByAttached h (nodes p).
Proof.
  intros p h. unfold cleanupAllUI_wrappers. cbn [activeIntervals].
  apply cleanupWrappers_intervals.
Qed.

(** After the retargeting of the fixture, the first run's interval survives
    the cleanup. *)
Example retargeted_interval_survives_cleanup :
  activeIntervals (cleanupAllUI_wrappers retargeted) = [1%positive].
Proof. reflexivity. Qed.
